(** * Modulation spectroscopy: the numerical core of [Widget.update]

    A shallow embedding of [ModulationSpectroscopy.py].  The Qt layout code
    is left out; what is kept is the state [update] reads (the six slider
    values and the combo-box text), the state it writes (the data of the
    five plot curves) and everything in between: the grids, the four
    lambdas and the scheme dispatch.

    The arithmetic of the script is NumPy's.  The script's expressions are
    embedded once, over an interface [NumOps] that lists the operations the
    script uses and assumes one law about them (a nonzero integer literal is
    not zero); a statement proved at that level holds for IEEE doubles as
    well as for real numbers.  Statements that need an order, or that depend
    on what a division by zero yields, are proved for the instance [xreal]:
    the reals extended with the three IEEE special values. *)

From Stdlib Require Import String ZArith Bool Lia.
From Stdlib Require Import Reals Lra.
From Stdlib Require Import List.
Import ListNotations.
Local Open Scope string_scope.

Set Implicit Arguments.

(** ** The operations of the script *)

Class NumOps (F : Type) : Type := {
  lit     : Z -> F;            (* an integer literal: 0, 1, 2, 180, ... *)
  half    : F;                 (* the literal 0.5 *)
  np_pi   : F;                 (* np.pi *)
  fadd    : F -> F -> F;       (* a + b *)
  fsub    : F -> F -> F;       (* a - b *)
  fmul    : F -> F -> F;       (* a * b *)
  fdiv    : F -> F -> F;       (* a / b as the hardware divides: total *)
  is_zero : F -> bool;         (* b == 0, the test of Python's float division *)
  fneg    : F -> F;            (* -a *)
  fpow2   : F -> F;            (* a ** 2 *)
  np_exp  : F -> F;
  np_cos  : F -> F;
  np_sin  : F -> F;
  np_sqrt : F -> F;
  lit_nonzero : forall z : Z, z <> 0%Z -> is_zero (lit z) = false
}.

(** ** Exceptions

    The operation of the script whose failure is modelled is [/]: Python's
    own division of a float by a float raises [ZeroDivisionError] on a zero
    divisor.  NumPy's division, used as soon as one operand is an array,
    does not: it warns and yields an infinity or a NaN.

    Python's [**] on a float raises [OverflowError] when the square leaves
    the range of a double, which [gamma**2] does for a line width above
    about 1.34e154 in absolute value.  That error is not modelled: a square
    is computed as a value here.  The statements below that say a call
    returns are therefore statements about line widths whose square is a
    double, as the square of zero and of every slider value is. *)
Inductive exn : Type := ZeroDivisionError.

Inductive outcome (A : Type) : Type :=
| Returns (a : A)
| Raises (e : exn).

Arguments Raises {A} e.

Definition bind {A B : Type} (c : outcome A) (k : A -> outcome B) : outcome B :=
  match c with
  | Returns a => k a
  | Raises e => Raises e
  end.

Notation "v <- c ;; k" := (bind c (fun v => k))
  (at level 61, c at next level, right associativity).


(** Two lists combined position by position, as NumPy combines two arrays of
    one shape. *)
Fixpoint zipWith {A B C : Type} (f : A -> B -> C) (xs : list A) (ys : list B)
  : list C :=
  match xs, ys with
  | a :: xs', b :: ys' => f a b :: zipWith f xs' ys'
  | _, _ => []
  end.

(** The last element of a list overwritten, [y[-1] = v]. *)
Fixpoint set_last {A : Type} (v : A) (xs : list A) : list A :=
  match xs with
  | [] => []
  | [_] => [v]
  | a :: xs' => a :: set_last v xs'
  end.

Section Script.

Context {F : Type} {ops : NumOps F}.

(** What a lambda of the script is applied to and what it returns: a number
    or a one-dimensional array. *)
Inductive value : Type :=
| Scalar (s : F)
| Array (xs : list F).

(** A binary operator with NumPy's broadcasting: a number is combined with
    every element of an array, two arrays element by element.  (Two arrays
    of different lengths make NumPy raise; [update] only ever combines
    arrays computed from one and the same array, so that [zipWith] never
    meets two lengths: see [zipWith_map].) *)
Definition broadcast (op : F -> F -> F) (a b : value) : value :=
  match a, b with
  | Scalar u, Scalar v => Scalar (op u v)
  | Scalar u, Array vs => Array (map (op u) vs)
  | Array us, Scalar v => Array (map (fun u => op u v) us)
  | Array us, Array vs => Array (zipWith op us vs)
  end.

(** A function applied element by element. *)
Definition ufunc (f : F -> F) (a : value) : value :=
  match a with
  | Scalar u => Scalar (f u)
  | Array us => Array (map f us)
  end.

Definition vadd := broadcast fadd.
Definition vsub := broadcast fsub.
Definition vmul := broadcast fmul.
Definition vneg := ufunc fneg.
Definition vpow2 := ufunc fpow2.
Definition vexp := ufunc np_exp.
Definition vcos := ufunc np_cos.
Definition vsin := ufunc np_sin.

(** [a / b]: between two numbers Python's division, which raises on a zero
    divisor; NumPy's otherwise. *)
Definition vdiv (a b : value) : outcome value :=
  match a, b with
  | Scalar u, Scalar v =>
      if is_zero v then Raises ZeroDivisionError
      else Returns (Scalar (fdiv u v))
  | _, _ => Returns (broadcast fdiv a b)
  end.

(** An integer literal, [0.5] and [np.pi] as operands. *)
Definition vlit (z : Z) : value := Scalar (lit z).
Definition vhalf : value := Scalar half.
Definition vpi : value := Scalar np_pi.

(** [np.linspace(start, stop, num)]: [arange(0, num) * step + start] with
    [step = (stop - start) / (num - 1)], and the last sample set to [stop]. *)
Definition linspace (start stop : Z) (num : nat) : list F :=
  let step := fdiv (fsub (lit stop) (lit start)) (lit (Z.of_nat num - 1)) in
  set_last (lit stop)
    (map (fun i => fadd (fmul (lit (Z.of_nat i)) step) (lit start))
         (seq 0 num)).

(** ** The local variables of [update]

    The lambdas are closures over the local variables of [update]: they
    read a variable when they are called, not when they are built.  The
    frame is therefore an explicit record, passed to a lambda at each call,
    and the assignment [fmfmod = fmod1 - fmod2] is a record update. *)
Record Locals : Type := mkLocals {
  gamma  : F;
  fmfmod : F;
  fmod1  : F;
  fmod2  : F;
  flaser : F;
  M1     : F;
  M2     : F;
  x      : list F;
  t      : list F;
  x1     : list F
}.

Definition set_fmfmod (v : F) (e : Locals) : Locals :=
  mkLocals (gamma e) v (fmod1 e) (fmod2 e) (flaser e) (M1 e) (M2 e)
           (x e) (t e) (x1 e).

(** [absorption = lambda val: 1-0.5*np.exp(-(flaser+val)**2/(2*gamma**2))]
    Python reads [-a**2/b] as [(-(a**2))/b]. *)
Definition absorption (e : Locals) (val : value) : outcome value :=
  q <- vdiv (vneg (vpow2 (vadd (Scalar (flaser e)) val)))
            (vmul (vlit 2) (vpow2 (Scalar (gamma e)))) ;;
  Returns (vsub (vlit 1) (vmul vhalf (vexp q))).

(** One factor [fq*t*np.pi/180] of [laser], read from the left. *)
Definition degrees (e : Locals) (fq : F) : outcome value :=
  vdiv (vmul (vmul (Scalar fq) (Array (t e))) vpi) (vlit 180).

(** [laser = lambda val: (np.cos(flaser*t*np.pi/180)
                          *np.cos(M1*np.sin(fmod1*t*np.pi/180))
                          *np.cos(M2*np.sin(fmod2*t*np.pi/180)))]
    The body does not mention [val]. *)
Definition laser (e : Locals) (val : value) : outcome value :=
  d0 <- degrees e (flaser e) ;;
  d1 <- degrees e (fmod1 e) ;;
  d2 <- degrees e (fmod2 e) ;;
  Returns (vmul (vmul (vcos d0) (vcos (vmul (Scalar (M1 e)) (vsin d1))))
                (vcos (vmul (Scalar (M2 e)) (vsin d2)))).

(** [FMerrorsig = lambda val: (M1/2)*absorption(val)
                              *(absorption(val-fmfmod)-absorption(val+fmfmod))] *)
Definition FMerrorsig (e : Locals) (val : value) : outcome value :=
  h  <- vdiv (Scalar (M1 e)) (vlit 2) ;;
  a  <- absorption e val ;;
  am <- absorption e (vsub val (Scalar (fmfmod e))) ;;
  ap <- absorption e (vadd val (Scalar (fmfmod e))) ;;
  Returns (vmul (vmul h a) (vsub am ap)).

(** [TTFMS = lambda val: (M1/2)*(M2/2)
       *(absorption(val-fmod1)*absorption(val-fmod2)
         +absorption(val+fmod1)*absorption(val+fmod2)-2*absorption(val)**2)] *)
Definition TTFMS (e : Locals) (val : value) : outcome value :=
  h1  <- vdiv (Scalar (M1 e)) (vlit 2) ;;
  h2  <- vdiv (Scalar (M2 e)) (vlit 2) ;;
  am1 <- absorption e (vsub val (Scalar (fmod1 e))) ;;
  am2 <- absorption e (vsub val (Scalar (fmod2 e))) ;;
  ap1 <- absorption e (vadd val (Scalar (fmod1 e))) ;;
  ap2 <- absorption e (vadd val (Scalar (fmod2 e))) ;;
  a   <- absorption e val ;;
  Returns (vmul (vmul h1 h2)
                (vsub (vadd (vmul am1 am2) (vmul ap1 ap2))
                      (vmul (vlit 2) (vpow2 a)))).

(** ** The transform of [scipy.fftpack]

    [fft] belongs to SciPy, not to the script; it is embedded by the
    formula of its documentation,
    [y[k] = sum(x[j] * exp(-2*pi*sqrt(-1)*j*k/n), j = 0 .. n-1]],
    on complex numbers kept as pairs (real part, imaginary part). *)
Definition cadd (a b : F * F) : F * F :=
  (fadd (fst a) (fst b), fadd (snd a) (snd b)).

Definition cmul (a b : F * F) : F * F :=
  (fsub (fmul (fst a) (fst b)) (fmul (snd a) (snd b)),
   fadd (fmul (fst a) (snd b)) (fmul (snd a) (fst b))).

Definition czero : F * F := (lit 0, lit 0).

(** [exp(-2*pi*i*j*k/n)] *)
Definition twiddle (n j k : nat) : F * F :=
  let theta :=
    fneg (fdiv (fmul (fmul (lit 2) np_pi) (lit (Z.of_nat (j * k))))
               (lit (Z.of_nat n))) in
  (np_cos theta, np_sin theta).

Definition fft_entry (xs : list F) (k : nat) : F * F :=
  fold_left cadd
    (map (fun j => cmul (nth j xs (lit 0), lit 0) (twiddle (length xs) j k))
         (seq 0 (length xs)))
    czero.

Definition fft (xs : list F) : list (F * F) :=
  map (fft_entry xs) (seq 0 (length xs)).

(** [abs] of a complex number. *)
Definition cabs (c : F * F) : F :=
  np_sqrt (fadd (fpow2 (fst c)) (fpow2 (snd c))).

(** The samples of a value; a number counts as an array of one sample
    ([laser] returns an array whatever it is given: [laser_Array]). *)
Definition samples (v : value) : list F :=
  match v with
  | Scalar u => [u]
  | Array us => us
  end.

(** [abs(fft(v))] *)
Definition abs_fft (v : value) : value :=
  Array (map cabs (fft (samples v))).

(** ** The widget *)

(** What a plot curve holds after [setData]: with two arguments the
    abscissae and the ordinates, with one argument the ordinates only. *)
Record PlotData : Type := mkPlotData {
  xData : option value;
  yData : value
}.

Definition setData2 (xs ys : value) : PlotData := mkPlotData (Some xs) ys.
Definition setData1 (ys : value) : PlotData := mkPlotData None ys.

(** The part of [self] that [update] reads and writes: [w1 .. w6] are the
    [x] attributes of the six sliders, [c1] the current text of the combo
    box. *)
Record Widget : Type := mkWidget {
  w1 : F;
  w2 : F;
  w3 : F;
  w4 : F;
  w5 : F;
  w6 : F;
  c1 : string;
  curve1  : PlotData;
  curve2  : PlotData;
  curve2b : PlotData;
  curve3  : PlotData;
  curve4  : PlotData
}.

Definition set_curve1 (d : PlotData) (w : Widget) : Widget :=
  mkWidget (w1 w) (w2 w) (w3 w) (w4 w) (w5 w) (w6 w) (c1 w)
           d (curve2 w) (curve2b w) (curve3 w) (curve4 w).
Definition set_curve2 (d : PlotData) (w : Widget) : Widget :=
  mkWidget (w1 w) (w2 w) (w3 w) (w4 w) (w5 w) (w6 w) (c1 w)
           (curve1 w) d (curve2b w) (curve3 w) (curve4 w).
Definition set_curve2b (d : PlotData) (w : Widget) : Widget :=
  mkWidget (w1 w) (w2 w) (w3 w) (w4 w) (w5 w) (w6 w) (c1 w)
           (curve1 w) (curve2 w) d (curve3 w) (curve4 w).
Definition set_curve3 (d : PlotData) (w : Widget) : Widget :=
  mkWidget (w1 w) (w2 w) (w3 w) (w4 w) (w5 w) (w6 w) (c1 w)
           (curve1 w) (curve2 w) (curve2b w) d (curve4 w).
Definition set_curve4 (d : PlotData) (w : Widget) : Widget :=
  mkWidget (w1 w) (w2 w) (w3 w) (w4 w) (w5 w) (w6 w) (c1 w)
           (curve1 w) (curve2 w) (curve2b w) (curve3 w) d.

(** The first statements of [update], up to the lambdas: the frame as it
    is when the lambdas have been built. *)
Definition frame (self : Widget) : Locals :=
  {| gamma  := w1 self;
     fmfmod := w2 self;
     fmod1  := w2 self;
     fmod2  := w3 self;
     flaser := w4 self;
     M1     := w5 self;
     M2     := w6 self;
     x      := linspace (-10000) 10000 1000;
     t      := linspace 0 1000 1000;
     x1     := linspace 0 10000 1000 |}.

(** The [if / elif / elif] on the combo-box text.  It returns the frame as
    well, since its third arm assigns to [fmfmod]. *)
Definition dispatch (e : Locals) (self : Widget) : outcome (Locals * Widget) :=
  if String.eqb (c1 self) "Frequency Modulation" then
    y <- FMerrorsig e (Array (x e)) ;;
    let self := set_curve2 (setData2 (Array (x1 e)) y) self in
    Returns (e, set_curve2b (setData1 (Array [lit 0])) self)
  else if String.eqb (c1 self) "Two Tone Frequency Modulation" then
    y <- TTFMS e (Array (x e)) ;;
    let self := set_curve2 (setData2 (Array (x1 e)) y) self in
    Returns (e, set_curve2b (setData1 (Array [lit 0])) self)
  else if String.eqb (c1 self) "FM and TTFMS" then
    let e := set_fmfmod (fsub (fmod1 e) (fmod2 e)) e in
    y <- FMerrorsig e (Array (x e)) ;;
    let self := set_curve2 (setData2 (Array (x1 e)) y) self in
    yb <- TTFMS e (Array (x e)) ;;
    Returns (e, set_curve2b (setData2 (Array (x1 e)) yb) self)
  else Returns (e, self).

(** [Widget.update] *)
Definition update (self : Widget) : outcome Widget :=
  let e := frame self in
  y <- absorption e (Array (x e)) ;;
  let self := set_curve1 (setData2 (Array (x1 e)) y) self in
  r <- dispatch e self ;;
  let '(e, self) := r in
  f <- laser e (Array (x e)) ;;
  let self := set_curve3 (setData1 (abs_fft f)) self in
  f' <- laser e (Array (x e)) ;;
  Returns (set_curve4 (setData1 f') self).

End Script.

Arguments value F : clear implicits.
Arguments Locals F : clear implicits.
Arguments PlotData F : clear implicits.
Arguments Widget F : clear implicits.

(** ** The formulas of the specification

    The four formulas as the specification writes them, on one number at a
    time, over the same arithmetic.  A product or quotient of three is read
    from the left, [-a²/b] as [(-(a²))/b]. *)
Section Formulas.

Context {F : Type} {ops : NumOps F}.

Record SimulationParameters : Type := mkParams {
  lineWidth : F;
  modFreq1  : F;
  modFreq2  : F;
  laserFreq : F;
  modIndex1 : F;
  modIndex2 : F
}.

Definition with_modFreq1 (v : F) (p : SimulationParameters)
  : SimulationParameters :=
  mkParams (lineWidth p) v (modFreq2 p) (laserFreq p) (modIndex1 p)
           (modIndex2 p).

(** [T(ω) = 1 − 0.5 · exp(−(laserFreq + ω)² / (2 · lineWidth²))] *)
Definition spec_T (p : SimulationParameters) (w : F) : F :=
  fsub (lit 1)
       (fmul half
             (np_exp (fdiv (fneg (fpow2 (fadd (laserFreq p) w)))
                           (fmul (lit 2) (fpow2 (lineWidth p)))))).

(** [errorFM(ω) = (modIndex1/2) · T(ω) · [T(ω − modFreq1) − T(ω + modFreq1)]] *)
Definition spec_errorFM (p : SimulationParameters) (w : F) : F :=
  fmul (fmul (fdiv (modIndex1 p) (lit 2)) (spec_T p w))
       (fsub (spec_T p (fsub w (modFreq1 p)))
             (spec_T p (fadd w (modFreq1 p)))).

(** [errorTTFMS(ω) = (modIndex1/2)·(modIndex2/2)
      · [T(ω−modFreq1)·T(ω−modFreq2) + T(ω+modFreq1)·T(ω+modFreq2) − 2·T(ω)²]] *)
Definition spec_errorTTFMS (p : SimulationParameters) (w : F) : F :=
  fmul (fmul (fdiv (modIndex1 p) (lit 2)) (fdiv (modIndex2 p) (lit 2)))
       (fsub (fadd (fmul (spec_T p (fsub w (modFreq1 p)))
                         (spec_T p (fsub w (modFreq2 p))))
                   (fmul (spec_T p (fadd w (modFreq1 p)))
                         (spec_T p (fadd w (modFreq2 p)))))
             (fmul (lit 2) (fpow2 (spec_T p w)))).

(** [E(t) = cos(laserFreq·t·π/180) · cos(modIndex1·sin(modFreq1·t·π/180))
            · cos(modIndex2·sin(modFreq2·t·π/180))] *)
Definition spec_E (p : SimulationParameters) (tt : F) : F :=
  let deg fq := fdiv (fmul (fmul fq tt) np_pi) (lit 180) in
  fmul (fmul (np_cos (deg (laserFreq p)))
             (np_cos (fmul (modIndex1 p) (np_sin (deg (modFreq1 p))))))
       (np_cos (fmul (modIndex2 p) (np_sin (deg (modFreq2 p))))).

(** The parameters a frame holds, and those a widget's sliders hold: the
    sliders are built as "Gamma", "Mod Freq 1", "Mod Freq 2", "Laser Freq",
    "Mod Index 1", "Mod Index 2". *)
Definition frame_params (e : Locals F) : SimulationParameters :=
  mkParams (gamma e) (fmod1 e) (fmod2 e) (flaser e) (M1 e) (M2 e).

Definition params (self : Widget F) : SimulationParameters :=
  mkParams (w1 self) (w2 self) (w3 self) (w4 self) (w5 self) (w6 self).

(** The three grids of [update]. *)
Definition x_grid : list F := linspace (-10000) 10000 1000.
Definition t_grid : list F := linspace 0 1000 1000.
Definition x1_grid : list F := linspace 0 10000 1000.

(** What the two error curves hold after [update], from the formulas:
    by the text of the combo box, and left as they were for a text that is
    none of the three items. *)
Definition error_traces (self : Widget F) : PlotData F * PlotData F :=
  let p := params self in
  if String.eqb (c1 self) "Frequency Modulation" then
    (setData2 (Array x1_grid) (Array (map (spec_errorFM p) x_grid)),
     setData1 (Array [lit 0]))
  else if String.eqb (c1 self) "Two Tone Frequency Modulation" then
    (setData2 (Array x1_grid) (Array (map (spec_errorTTFMS p) x_grid)),
     setData1 (Array [lit 0]))
  else if String.eqb (c1 self) "FM and TTFMS" then
    (setData2 (Array x1_grid)
       (Array (map (spec_errorFM
                      (with_modFreq1 (fsub (modFreq1 p) (modFreq2 p)) p))
                   x_grid)),
     setData2 (Array x1_grid) (Array (map (spec_errorTTFMS p) x_grid)))
  else (curve2 self, curve2b self).

(** The widget after [update], from the formulas. *)
Definition updated (self : Widget F) : Widget F :=
  let p := params self in
  let field := Array (map (spec_E p) t_grid) in
  mkWidget (w1 self) (w2 self) (w3 self) (w4 self) (w5 self) (w6 self)
           (c1 self)
           (setData2 (Array x1_grid) (Array (map (spec_T p) x_grid)))
           (fst (error_traces self))
           (snd (error_traces self))
           (setData1 (abs_fft field))
           (setData1 field).

(** The widget with the slider "Mod Freq 1" moved to the difference of the
    two modulation frequencies and the combo box on its first item. *)
Definition retuned (self : Widget F) : Widget F :=
  mkWidget (w1 self) (fsub (w2 self) (w3 self)) (w3 self) (w4 self)
           (w5 self) (w6 self) "Frequency Modulation"
           (curve1 self) (curve2 self) (curve2b self) (curve3 self)
           (curve4 self).

(** The value of [fmfmod] when [update] ends. *)
Definition final_fmfmod (self : Widget F) : F :=
  if String.eqb (c1 self) "FM and TTFMS"
  then fsub (w2 self) (w3 self)
  else w2 self.

End Formulas.

Arguments SimulationParameters F : clear implicits.

(** The three items of the combo box, in the order of the [addItem] calls. *)
Inductive Scheme : Type :=
| FrequencyModulation
| TwoToneFrequencyModulation
| CombinedFMAndTTFMS.

Definition item_text (s : Scheme) : string :=
  match s with
  | FrequencyModulation => "Frequency Modulation"
  | TwoToneFrequencyModulation => "Two Tone Frequency Modulation"
  | CombinedFMAndTTFMS => "FM and TTFMS"
  end.

(** ** Reals with the IEEE special values

    [xreal] is the arithmetic of the script with rounding left out: a finite
    number is a real and is computed with exactly, so that nothing
    overflows or underflows; the infinities and NaN arise and propagate as
    IEEE 754 has them.  There is one zero, taken as [+0]: the only divisor
    of the script that can be zero is [2*gamma**2], which is never [-0]. *)
Inductive xreal : Type :=
| Fin (r : R)
| PInf
| NInf
| NaN.

Inductive sign : Type := Neg | Zer | Pos.

Definition sign_of (r : R) : sign :=
  match total_order_T r 0 with
  | inleft (left _) => Neg
  | inleft (right _) => Zer
  | inright _ => Pos
  end.

Definition xneg (a : xreal) : xreal :=
  match a with
  | Fin u => Fin (- u)
  | PInf => NInf
  | NInf => PInf
  | NaN => NaN
  end.

Definition xadd (a b : xreal) : xreal :=
  match a, b with
  | NaN, _ | _, NaN => NaN
  | Fin u, Fin v => Fin (u + v)
  | PInf, NInf | NInf, PInf => NaN
  | PInf, _ | _, PInf => PInf
  | NInf, _ | _, NInf => NInf
  end.

Definition xsub (a b : xreal) : xreal := xadd a (xneg b).

(** The product of an infinity, positive or negative, and a finite [u]:
    an infinity by the rule of signs, NaN when [u] is zero. *)
Definition signed_inf (positive : bool) (u : R) : xreal :=
  match sign_of u with
  | Pos => if positive then PInf else NInf
  | Neg => if positive then NInf else PInf
  | Zer => NaN
  end.

Definition xmul (a b : xreal) : xreal :=
  match a, b with
  | NaN, _ | _, NaN => NaN
  | Fin u, Fin v => Fin (u * v)
  | Fin u, PInf | PInf, Fin u => signed_inf true u
  | Fin u, NInf | NInf, Fin u => signed_inf false u
  | PInf, PInf | NInf, NInf => PInf
  | PInf, NInf | NInf, PInf => NInf
  end.

Definition xdiv (a b : xreal) : xreal :=
  match a, b with
  | NaN, _ | _, NaN => NaN
  | Fin u, Fin v =>
      match sign_of v with
      | Zer => signed_inf true u
      | _ => Fin (u / v)
      end
  | Fin _, PInf | Fin _, NInf => Fin 0
  | PInf, Fin v => match sign_of v with Neg => NInf | _ => PInf end
  | NInf, Fin v => match sign_of v with Neg => PInf | _ => NInf end
  | _, _ => NaN
  end.

Definition xis_zero (a : xreal) : bool :=
  match a with
  | Fin u => match sign_of u with Zer => true | _ => false end
  | _ => false
  end.

Definition xexp (a : xreal) : xreal :=
  match a with
  | Fin u => Fin (exp u)
  | PInf => PInf
  | NInf => Fin 0
  | NaN => NaN
  end.

Definition xcos (a : xreal) : xreal :=
  match a with
  | Fin u => Fin (cos u)
  | _ => NaN
  end.

Definition xsin (a : xreal) : xreal :=
  match a with
  | Fin u => Fin (sin u)
  | _ => NaN
  end.

Definition xsqrt (a : xreal) : xreal :=
  match a with
  | Fin u => match sign_of u with Neg => NaN | _ => Fin (sqrt u) end
  | PInf => PInf
  | _ => NaN
  end.

#[export] Instance xreal_ops : NumOps xreal.
Proof.
  refine {| lit := fun z => Fin (IZR z);
            half := Fin 0.5;
            np_pi := Fin PI;
            fadd := xadd; fsub := xsub; fmul := xmul; fdiv := xdiv;
            is_zero := xis_zero;
            fneg := xneg;
            fpow2 := fun a => xmul a a;
            np_exp := xexp; np_cos := xcos; np_sin := xsin;
            np_sqrt := xsqrt;
            lit_nonzero := _ |}.
  intros z Hz. unfold xis_zero, sign_of.
  destruct (total_order_T (IZR z) 0) as [[Hlt | Heq] | Hgt]; try reflexivity.
  exfalso. apply Hz. apply eq_IZR. exact Heq.
Defined.

(** ** The formulas on real numbers *)

(** [T(ω) = 1 − 0.5·exp(−(laserFreq + ω)² / (2·lineWidth²))] *)
Definition T_real (lw lf w : R) : R :=
  (1 - 0.5 * exp (- (lf + w) ^ 2 / (2 * lw ^ 2)))%R.

(** [errorFM(ω) = (modIndex1/2) · T(ω) · [T(ω − shift) − T(ω + shift)]] *)
Definition errorFM_real (lw lf m shift w : R) : R :=
  (m / 2 * T_real lw lf w
   * (T_real lw lf (w - shift) - T_real lw lf (w + shift)))%R.

(** Complex numbers over the reals, for the magnitude spectrum
    [|Σ E(t_j)·exp(−2πi·j·k/N)|]. *)
Definition Cplus (a b : R * R) : R * R :=
  (fst a + fst b, snd a + snd b)%R.

Definition Cmult (a b : R * R) : R * R :=
  (fst a * fst b - snd a * snd b, fst a * snd b + snd a * fst b)%R.

(** [exp(i·θ)] *)
Definition Cexp_i (theta : R) : R * R := (cos theta, sin theta).

Definition Cmod (a : R * R) : R := sqrt (fst a ^ 2 + snd a ^ 2).

(** [Σ_j E_j · exp(−2πi·j·k/N)], [j] from [0] to [N − 1]. *)
Definition dft_sum (es : list R) (k : nat) : R * R :=
  fold_right Cplus (0, 0)%R
    (map (fun j => Cmult (nth j es 0%R, 0%R)
                         (Cexp_i (- (2 * PI * INR j * INR k / INR (length es)))))
         (seq 0 (length es))).

Definition dft_magnitude (es : list R) (k : nat) : R := Cmod (dft_sum es k).

(** A complex number over the reals as the pair of finite numbers [fft]
    computes with. *)
Definition finite_pair (c : R * R) : xreal * xreal := (Fin (fst c), Fin (snd c)).

(** One term [E_j · exp(−2πi·j·k/N)] of the sum. *)
Definition dft_term (es : list R) (k j : nat) : R * R :=
  Cmult (nth j es 0%R, 0%R)
        (Cexp_i (- (2 * PI * INR j * INR k / INR (length es)))).

(** A widget before its first [update]: no curve has data yet. *)
Definition no_data : PlotData xreal := mkPlotData None (Array []).

Definition fresh (g f1 f2 fl m1 m2 : R) (text : string) : Widget xreal :=
  mkWidget (Fin g) (Fin f1) (Fin f2) (Fin fl) (Fin m1) (Fin m2) text
           no_data no_data no_data no_data no_data.

(** The settings of the specification's scenario (line width 10, modulation
    frequencies 5 and 3, laser frequency 70, both indices 1), on each item
    of the combo box; the same with the laser frequency at zero, and with
    the line width at zero. *)
Definition scenario (s : Scheme) : Widget xreal :=
  fresh 10 5 3 70 1 1 (item_text s).

Definition centred : Widget xreal :=
  fresh 10 5 3 0 1 1 (item_text FrequencyModulation).

Definition zero_width : Widget xreal :=
  fresh 0 5 3 70 1 1 (item_text FrequencyModulation).

(** ** The sliders

    [Slider.setLabelValue] and the part of [Slider.__init__] that sets the
    attributes.  The range of the Qt slider ([slider.minimum()],
    [slider.maximum()]) and the values the two Qt controls hold when the
    slider is built belong to Qt and are parameters here.  The text of the
    label is left out. *)
Module Slider.

Section Slider.

Context {F : Type} {ops : NumOps F}.

(** The attributes of a slider: [minimum], [maximum], the range of the Qt
    slider, and [x]. *)
Record t : Type := mk {
  minimum : F;
  maximum : F;
  slider_minimum : Z;
  slider_maximum : Z;
  x : F
}.

(** [self.minimum + (float(value) / (self.slider.maximum()
       - self.slider.minimum())) * (self.maximum - self.minimum)]:
    the division is Python's, of a float by an integer, and raises when the
    integer is zero. *)
Definition scaled (lo hi : F) (smin smax : Z) (value : Z) : outcome F :=
  if Z.eqb (smax - smin) 0 then Raises ZeroDivisionError
  else Returns (fadd lo (fmul (fdiv (lit value) (lit (smax - smin)))
                              (fsub hi lo))).

(** The assignment to [self.x] in an object of the given bounds and range,
    whatever its [x] was. *)
Definition assign (lo hi : F) (smin smax : Z) (value : Z) : outcome t :=
  v <- scaled lo hi smin smax value ;;
  Returns (mk lo hi smin smax v).

(** [Slider.setLabelValue] *)
Definition setLabelValue (value : Z) (self : t) : outcome t :=
  assign (minimum self) (maximum self)
         (slider_minimum self) (slider_maximum self) value.

(** [Slider.__init__]: [setLabelValue] is called with the value of the Qt
    slider and then with the value of the spin box.  Each of the two
    assignments [self.x = None] is followed by such a call, which either
    overwrites [x] or raises; the object is seen only when both calls have
    returned, so that no [None] is ever read. *)
Definition init (lo hi : F) (smin smax : Z) (slider_value box_value : Z)
  : outcome t :=
  s <- assign lo hi smin smax slider_value ;;
  setLabelValue box_value s.

End Slider.

End Slider.

Arguments Slider.t F : clear implicits.

(** ** The window and its signals

    [Widget.__init__] builds the six sliders, runs [update] once and
    connects [update] to the [valueChanged] signal of each slider and of
    each spin box and to the [activated] signal of the combo box.  A
    [valueChanged] signal first reaches [Slider.setLabelValue], connected
    when the slider was built, and then [update].  The widget record keeps
    the [x] of each slider; the bounds of a slider never change and are
    read from the constructor calls. *)
Module Gui.

Inductive control : Type :=
| Gamma
| ModFreq1
| ModFreq2
| LaserFreq
| ModIndex1
| ModIndex2.

(** [Slider(0.01, 1000, "Gamma")], [Slider(0.01, 100, "Mod Freq 1")],
    [Slider(0.01, 100, "Mod Freq 2")], [Slider(50, 100, "Laser Freq")],
    [Slider(0.01, 10, "Mod Index 1")], [Slider(0.01, 10, "Mod Index 2")] *)
Definition bounds (k : control) : R * R :=
  match k with
  | Gamma => (0.01, 1000)
  | ModFreq1 => (0.01, 100)
  | ModFreq2 => (0.01, 100)
  | LaserFreq => (50, 100)
  | ModIndex1 => (0.01, 10)
  | ModIndex2 => (0.01, 10)
  end%R.

Definition get (k : control) (self : Widget xreal) : xreal :=
  match k with
  | Gamma => w1 self
  | ModFreq1 => w2 self
  | ModFreq2 => w3 self
  | LaserFreq => w4 self
  | ModIndex1 => w5 self
  | ModIndex2 => w6 self
  end.

Definition put (k : control) (v : xreal) (self : Widget xreal)
  : Widget xreal :=
  match k with
  | Gamma =>
      mkWidget v (w2 self) (w3 self) (w4 self) (w5 self) (w6 self) (c1 self)
        (curve1 self) (curve2 self) (curve2b self) (curve3 self) (curve4 self)
  | ModFreq1 =>
      mkWidget (w1 self) v (w3 self) (w4 self) (w5 self) (w6 self) (c1 self)
        (curve1 self) (curve2 self) (curve2b self) (curve3 self) (curve4 self)
  | ModFreq2 =>
      mkWidget (w1 self) (w2 self) v (w4 self) (w5 self) (w6 self) (c1 self)
        (curve1 self) (curve2 self) (curve2b self) (curve3 self) (curve4 self)
  | LaserFreq =>
      mkWidget (w1 self) (w2 self) (w3 self) v (w5 self) (w6 self) (c1 self)
        (curve1 self) (curve2 self) (curve2b self) (curve3 self) (curve4 self)
  | ModIndex1 =>
      mkWidget (w1 self) (w2 self) (w3 self) (w4 self) v (w6 self) (c1 self)
        (curve1 self) (curve2 self) (curve2b self) (curve3 self) (curve4 self)
  | ModIndex2 =>
      mkWidget (w1 self) (w2 self) (w3 self) (w4 self) (w5 self) v (c1 self)
        (curve1 self) (curve2 self) (curve2b self) (curve3 self) (curve4 self)
  end.

Definition set_text (text : string) (self : Widget xreal) : Widget xreal :=
  mkWidget (w1 self) (w2 self) (w3 self) (w4 self) (w5 self) (w6 self) text
    (curve1 self) (curve2 self) (curve2b self) (curve3 self) (curve4 self).

Section Signals.

(** The range of every Qt slider and the values the Qt slider and the spin
    box hold when they are built. *)
Variables (smin smax : Z) (slider_value box_value : Z).

(** The slider object of a control. *)
Definition slider (k : control) (self : Widget xreal) : Slider.t xreal :=
  Slider.mk (Fin (fst (bounds k))) (Fin (snd (bounds k))) smin smax
            (get k self).

(** A [valueChanged] signal of the slider or of the spin box of control
    [k]: [setLabelValue(value)], then [update]. *)
Definition valueChanged (k : control) (value : Z) (self : Widget xreal)
  : outcome (Widget xreal) :=
  s <- Slider.setLabelValue value (slider k self) ;;
  update (put k (Slider.x s) self).

(** An [activated] signal of the combo box: the current text is that of
    the chosen item, then [update]. *)
Definition activated (s : Scheme) (self : Widget xreal)
  : outcome (Widget xreal) :=
  update (set_text (item_text s) self).

Definition built (k : control) : outcome (Slider.t xreal) :=
  Slider.init (Fin (fst (bounds k))) (Fin (snd (bounds k))) smin smax
              slider_value box_value.

(** [Widget.__init__]: the six sliders, the combo box on its first item,
    the five curves without data, and the first [update]. *)
Definition init : outcome (Widget xreal) :=
  s1 <- built Gamma ;;
  s2 <- built ModFreq1 ;;
  s3 <- built ModFreq2 ;;
  s4 <- built LaserFreq ;;
  s5 <- built ModIndex1 ;;
  s6 <- built ModIndex2 ;;
  update (mkWidget (Slider.x s1) (Slider.x s2) (Slider.x s3) (Slider.x s4)
                   (Slider.x s5) (Slider.x s6)
                   (item_text FrequencyModulation)
                   no_data no_data no_data no_data no_data).

(** What the user does after the window is built. *)
Inductive event : Type :=
| SliderMoved (k : control) (value : Z)
| BoxChanged (k : control) (value : Z)
| ItemChosen (s : Scheme).

Definition handle (ev : event) (self : Widget xreal)
  : outcome (Widget xreal) :=
  match ev with
  | SliderMoved k value => valueChanged k value self
  | BoxChanged k value => valueChanged k value self
  | ItemChosen s => activated s self
  end.

Fixpoint run (evs : list event) (self : Widget xreal)
  : outcome (Widget xreal) :=
  match evs with
  | [] => Returns self
  | ev :: evs' => s <- handle ev self ;; run evs' s
  end.

(** The window after it is built and the events have been handled. *)
Definition session (evs : list event) : outcome (Widget xreal) :=
  s <- init ;; run evs s.

(** An event a Qt control of range [0 .. smax] can send. *)
Definition in_range (ev : event) : Prop :=
  match ev with
  | SliderMoved _ value => (0 <= value <= smax)%Z
  | BoxChanged _ value => (0 <= value <= smax)%Z
  | ItemChosen _ => True
  end.

End Signals.

End Gui.

(** ** More formulas on real numbers *)

(** [errorTTFMS(ω)] on reals. *)
Definition errorTTFMS_real (lw lf m1 m2 f1 f2 w : R) : R :=
  (m1 / 2 * (m2 / 2)
   * (T_real lw lf (w - f1) * T_real lw lf (w - f2)
      + T_real lw lf (w + f1) * T_real lw lf (w + f2)
      - 2 * (T_real lw lf w) ^ 2))%R.

(** [E(t)] on reals. *)
Definition E_real (lf m1 m2 f1 f2 tt : R) : R :=
  (cos (lf * tt * PI / 180)
   * cos (m1 * sin (f1 * tt * PI / 180))
   * cos (m2 * sin (f2 * tt * PI / 180)))%R.

(** The conjugate of a complex number. *)
Definition Cconj (a : R * R) : R * R := (fst a, (- snd a)%R).

(** The grid of [np.linspace] on reals. *)
Definition linspace_real (a b : Z) (n : nat) : list R :=
  set_last (IZR b)
    (map (fun i => (IZR (Z.of_nat i) * ((IZR b - IZR a) / IZR (Z.of_nat n - 1))
                    + IZR a)%R)
         (seq 0 n)).

(** The detuning at the same distance from the line centre [−laserFreq],
    on its other side. *)
Definition mirror (lf w : R) : R := (- 2 * lf - w)%R.

(** A curve with abscissae and ordinates, [n] of each. *)
Definition aligned {F : Type} (n : nat) (d : PlotData F) : Prop :=
  exists xs ys : list F,
    xData d = Some (Array xs) /\ yData d = Array ys
    /\ length xs = n /\ length ys = n.

(** A curve of [n] ordinates without abscissae. *)
Definition bare {F : Type} (n : nat) (d : PlotData F) : Prop :=
  exists ys : list F,
    xData d = None /\ yData d = Array ys /\ length ys = n.

(** Two widgets with the same slider values and the same text. *)
Definition same_controls {F : Type} (a b : Widget F) : Prop :=
  w1 a = w1 b /\ w2 a = w2 b /\ w3 a = w3 b /\ w4 a = w4 b
  /\ w5 a = w5 b /\ w6 a = w6 b /\ c1 a = c1 b.

(** A sample that is a finite number within given bounds. *)
Definition finite_within (lo hi : R) (v : xreal) : Prop :=
  exists r : R, v = Fin r /\ (lo <= r <= hi)%R.

(** Every slider value of a widget is finite and within the bounds its
    slider was built with. *)
Definition sliders_within_bounds (self : Widget xreal) : Prop :=
  forall k : Gui.control,
    finite_within (fst (Gui.bounds k)) (snd (Gui.bounds k)) (Gui.get k self).

(** The curves of a widget are those [update] computes from its controls. *)
Definition in_sync (self : Widget xreal) : Prop :=
  update self = Returns self.

(** What holds of the window whenever it is idle: the slider values are
    within their bounds, the text is one of the three items, and the curves
    are those of the controls. *)
Definition consistent (self : Widget xreal) : Prop :=
  sliders_within_bounds self
  /\ (exists s : Scheme, c1 self = item_text s)
  /\ in_sync self.

(** The value [setLabelValue] computes, on reals. *)
Definition scaled_real (lo hi : R) (smin smax value : Z) : R :=
  (lo + IZR value / IZR (smax - smin) * (hi - lo))%R.

(** A widget whose combo box shows a text that is none of its items, and
    the scenario with one curve already drawn. *)
Definition untitled : Widget xreal := fresh 10 5 3 70 1 1 "".

Definition drawn : Widget xreal :=
  set_curve1 (setData1 (Array [Fin 1])) (scenario FrequencyModulation).

(** * Facts about the embedding *)

Section Arrays.

Variables A B C : Type.

Lemma zipWith_map (f : B -> C -> A) (g : A -> B) (h : A -> C) (l : list A) :
  zipWith f (map g l) (map h l) = map (fun a => f (g a) (h a)) l.
Proof.
  induction l as [| a l IH]; simpl; [reflexivity | now rewrite IH].
Qed.

Lemma length_zipWith (f : A -> B -> C) (xs : list A) (ys : list B) :
  length xs = length ys -> length (zipWith f xs ys) = length xs.
Proof.
  revert ys. induction xs as [| a xs IH]; intros [| b ys] H; simpl in *;
    try reflexivity; try discriminate.
  f_equal. apply IH. now injection H.
Qed.

Lemma length_set_last (v : A) (xs : list A) :
  length (set_last v xs) = length xs.
Proof.
  induction xs as [| a [| b xs] IH]; simpl in *; try reflexivity.
  now rewrite IH.
Qed.

End Arrays.

Section ScriptFacts.

Context {F : Type} {ops : NumOps F}.

Lemma length_linspace (a b : Z) (n : nat) :
  length (linspace (F := F) a b n) = n.
Proof.
  unfold linspace. now rewrite length_set_last, length_map, length_seq.
Qed.

Lemma two_nonzero : is_zero (lit (F := F) 2) = false.
Proof. apply lit_nonzero. discriminate. Qed.

(** On an array [absorption] divides as NumPy does: it returns, whatever
    [gamma] is, and each sample depends on the sample at its position
    alone. *)
Lemma absorption_Array (e : Locals F) (ws : list F) :
  absorption e (Array ws)
  = Returns (Array (map (spec_T (frame_params e)) ws)).
Proof.
  unfold absorption. simpl. now rewrite !map_map.
Qed.

(** On a number the division is Python's. *)
Lemma absorption_Scalar (e : Locals F) (w : F) :
  absorption e (Scalar w)
  = if is_zero (fmul (lit 2) (fpow2 (gamma e)))
    then Raises ZeroDivisionError
    else Returns (Scalar (spec_T (frame_params e) w)).
Proof.
  unfold absorption. simpl.
  now destruct (is_zero (fmul (lit 2) (fpow2 (gamma e)))).
Qed.

Lemma FMerrorsig_Array (e : Locals F) (ws : list F) :
  FMerrorsig e (Array ws)
  = Returns (Array (map (spec_errorFM
                           (with_modFreq1 (fmfmod e) (frame_params e))) ws)).
Proof.
  unfold FMerrorsig. simpl vdiv. rewrite two_nonzero. simpl.
  repeat (rewrite ?map_map, ?zipWith_map). reflexivity.
Qed.

Lemma TTFMS_Array (e : Locals F) (ws : list F) :
  TTFMS e (Array ws)
  = Returns (Array (map (spec_errorTTFMS (frame_params e)) ws)).
Proof.
  unfold TTFMS. simpl vdiv. rewrite two_nonzero. simpl.
  repeat (rewrite ?map_map, ?zipWith_map). reflexivity.
Qed.

Lemma laser_Array (e : Locals F) (val : value F) :
  laser e val = Returns (Array (map (spec_E (frame_params e)) (t e))).
Proof.
  unfold laser, degrees. simpl.
  repeat (rewrite ?map_map, ?zipWith_map). reflexivity.
Qed.

Lemma error_traces_FM (self : Widget F) :
  c1 self = "Frequency Modulation" ->
  error_traces self
  = (setData2 (Array x1_grid)
              (Array (map (spec_errorFM (params self)) x_grid)),
     setData1 (Array [lit 0])).
Proof. intros Hc. unfold error_traces. rewrite Hc. reflexivity. Qed.

Lemma error_traces_TTFMS (self : Widget F) :
  c1 self = "Two Tone Frequency Modulation" ->
  error_traces self
  = (setData2 (Array x1_grid)
              (Array (map (spec_errorTTFMS (params self)) x_grid)),
     setData1 (Array [lit 0])).
Proof. intros Hc. unfold error_traces. rewrite Hc. reflexivity. Qed.

Lemma error_traces_combined (self : Widget F) :
  c1 self = "FM and TTFMS" ->
  error_traces self
  = (setData2 (Array x1_grid)
       (Array (map (spec_errorFM
                      (with_modFreq1 (fsub (w2 self) (w3 self)) (params self)))
                   x_grid)),
     setData2 (Array x1_grid)
              (Array (map (spec_errorTTFMS (params self)) x_grid))).
Proof. intros Hc. unfold error_traces. rewrite Hc. reflexivity. Qed.

Lemma dispatch_Returns (self : Widget F) :
  exists e,
    dispatch (frame self) self
    = Returns (e, set_curve2b (snd (error_traces self))
                    (set_curve2 (fst (error_traces self)) self))
    /\ fmfmod e = final_fmfmod self
    /\ frame_params e = params self
    /\ x e = x_grid /\ t e = t_grid.
Proof.
  unfold dispatch, final_fmfmod.
  destruct (String.eqb (c1 self) "Frequency Modulation") eqn:Hfm.
  - apply String.eqb_eq in Hfm.
    rewrite (error_traces_FM self Hfm), Hfm, FMerrorsig_Array.
    exists (frame self). split; [reflexivity |]. now repeat split.
  - destruct (String.eqb (c1 self) "Two Tone Frequency Modulation") eqn:Htt.
    + apply String.eqb_eq in Htt.
      rewrite (error_traces_TTFMS self Htt), Htt, TTFMS_Array.
      exists (frame self). split; [reflexivity |]. now repeat split.
    + destruct (String.eqb (c1 self) "FM and TTFMS") eqn:Hc.
      * apply String.eqb_eq in Hc.
        rewrite (error_traces_combined self Hc), FMerrorsig_Array, TTFMS_Array.
        exists (set_fmfmod (fsub (fmod1 (frame self)) (fmod2 (frame self)))
                           (frame self)).
        split; [reflexivity |]. now repeat split.
      * exists (frame self). unfold error_traces. rewrite Hfm, Htt, Hc.
        split; [destruct self; reflexivity |]. now repeat split.
Qed.

(** [update] raises nothing: it returns the widget [updated] describes. *)
Lemma update_Returns (self : Widget F) : update self = Returns (updated self).
Proof.
  unfold update. rewrite absorption_Array. cbv beta iota delta [bind].
  destruct (dispatch_Returns
              (set_curve1 (setData2 (Array (x1 (frame self)))
                 (Array (map (spec_T (frame_params (frame self)))
                             (x (frame self))))) self))
    as (e & Hd & _ & Hp & Hx & Ht).
  change (frame (set_curve1 ?d self)) with (frame self) in Hd.
  rewrite Hd. rewrite !laser_Array, Hp, Ht.
  reflexivity.
Qed.

End ScriptFacts.

(** ** The arithmetic of [xreal] on finite numbers *)

Arguments spec_T : simpl never.
Arguments linspace : simpl never.
Arguments x_grid : simpl never.
Arguments t_grid : simpl never.
Arguments x1_grid : simpl never.
Arguments xdiv : simpl never.
Arguments xsqrt : simpl never.
Arguments xis_zero : simpl never.

Section Finite.

Local Open Scope R_scope.

Lemma sign_of_pos (r : R) : 0 < r -> sign_of r = Pos.
Proof.
  intros H. unfold sign_of.
  destruct (total_order_T r 0) as [[Hlt | Heq] | Hgt]; try reflexivity; lra.
Qed.

Lemma sign_of_neg (r : R) : r < 0 -> sign_of r = Neg.
Proof.
  intros H. unfold sign_of.
  destruct (total_order_T r 0) as [[Hlt | Heq] | Hgt]; try reflexivity; lra.
Qed.

Lemma sign_of_zero : sign_of 0 = Zer.
Proof.
  unfold sign_of.
  destruct (total_order_T 0 0) as [[Hlt | Heq] | Hgt]; try reflexivity; lra.
Qed.

Lemma sign_of_nonneg (r : R) : 0 <= r -> sign_of r <> Neg.
Proof.
  intros H. unfold sign_of.
  destruct (total_order_T r 0) as [[Hlt | Heq] | Hgt]; try discriminate; lra.
Qed.

(** A finite number divided by a positive one. *)
Lemma xdiv_pos (u v : R) : 0 < v -> xdiv (Fin u) (Fin v) = Fin (u / v).
Proof. intros H. unfold xdiv. now rewrite (sign_of_pos H). Qed.

(** A negative number divided by zero. *)
Lemma xdiv_neg_zero (u : R) : u < 0 -> xdiv (Fin u) (Fin 0) = NInf.
Proof.
  intros H. unfold xdiv, signed_inf. now rewrite sign_of_zero, (sign_of_neg H).
Qed.

Lemma xsqrt_nonneg (u : R) : 0 <= u -> xsqrt (Fin u) = Fin (sqrt u).
Proof.
  intros H. unfold xsqrt. pose proof (sign_of_nonneg H).
  now destruct (sign_of u).
Qed.

Lemma two_sq_pos (g : R) : g <> 0 -> 0 < 2 * (g * g).
Proof. intros H. nra. Qed.

Lemma pow2_mul (r : R) : r ^ 2 = r * r.
Proof. ring. Qed.

(** With a line width that is not zero the transmission of a finite
    detuning is the real number of the formula. *)
Lemma spec_T_finite (p : SimulationParameters xreal) (lw lf w : R) :
  lineWidth p = Fin lw -> laserFreq p = Fin lf -> lw <> 0 ->
  spec_T p (Fin w) = Fin (T_real lw lf w).
Proof.
  intros Hg Hf Hlw. unfold spec_T, T_real. rewrite Hg, Hf, !pow2_mul. simpl.
  rewrite (xdiv_pos _ (two_sq_pos Hlw)). reflexivity.
Qed.

(** With a line width of zero the division is by zero: away from the line
    centre the quotient is minus infinity and the transmission is 1. *)
Lemma spec_T_zero_width (p : SimulationParameters xreal) (lf w : R) :
  lineWidth p = Fin 0 -> laserFreq p = Fin lf -> lf + w <> 0 ->
  spec_T p (Fin w) = Fin 1.
Proof.
  intros Hg Hf Hne. unfold spec_T. rewrite Hg, Hf. simpl.
  replace (2 * (0 * 0)) with 0 by ring.
  rewrite xdiv_neg_zero by nra. simpl. f_equal. lra.
Qed.

Lemma spec_errorFM_finite (p : SimulationParameters xreal)
      (lw lf m s w : R) :
  lineWidth p = Fin lw -> laserFreq p = Fin lf -> modIndex1 p = Fin m ->
  modFreq1 p = Fin s -> lw <> 0 ->
  spec_errorFM p (Fin w) = Fin (errorFM_real lw lf m s w).
Proof.
  intros Hg Hf Hm Hs Hlw. unfold spec_errorFM, errorFM_real.
  rewrite Hm, Hs. simpl.
  rewrite !(@spec_T_finite p lw lf _ Hg Hf Hlw). simpl.
  rewrite xdiv_pos by lra. reflexivity.
Qed.

End Finite.

(** * The properties of the specification *)

Section Schemes.

Context {F : Type} {ops : NumOps F}.

(** C4.  With the combo box on "Frequency Modulation", [FMerrorsig] maps
    every detuning [ω] of an array to
    [(modIndex1/2) · T(ω) · (T(ω − modFreq1) − T(ω + modFreq1))], and the
    error curve [update] sets is that formula over the detuning grid. *)
Theorem FM_error_curve (self : Widget F) :
  c1 self = item_text FrequencyModulation ->
  (forall ws,
      FMerrorsig (frame self) (Array ws)
      = Returns (Array (map (spec_errorFM (params self)) ws)))
  /\ exists self',
       update self = Returns self'
       /\ curve2 self'
          = setData2 (Array x1_grid)
                     (Array (map (spec_errorFM (params self)) x_grid)).
Proof.
  intros Hc. split.
  - intros ws. rewrite FMerrorsig_Array. reflexivity.
  - exists (updated self). split; [apply update_Returns |].
    change (curve2 (updated self)) with (fst (error_traces self)).
    now rewrite (error_traces_FM self Hc).
Qed.

(** C5.  With the combo box on "Two Tone Frequency Modulation", [TTFMS]
    maps every detuning [ω] of an array to
    [(modIndex1/2)·(modIndex2/2) · (T(ω−modFreq1)·T(ω−modFreq2)
       + T(ω+modFreq1)·T(ω+modFreq2) − 2·T(ω)²)],
    and the error curve [update] sets is that formula over the detuning
    grid. *)
Theorem TTFMS_error_curve (self : Widget F) :
  c1 self = item_text TwoToneFrequencyModulation ->
  (forall ws,
      TTFMS (frame self) (Array ws)
      = Returns (Array (map (spec_errorTTFMS (params self)) ws)))
  /\ exists self',
       update self = Returns self'
       /\ curve2 self'
          = setData2 (Array x1_grid)
                     (Array (map (spec_errorTTFMS (params self)) x_grid)).
Proof.
  intros Hc. split.
  - intros ws. rewrite TTFMS_Array. reflexivity.
  - exists (updated self). split; [apply update_Returns |].
    change (curve2 (updated self)) with (fst (error_traces self)).
    now rewrite (error_traces_TTFMS self Hc).
Qed.

(** C8.  With the combo box on "Frequency Modulation" or on "Two Tone
    Frequency Modulation", the second error curve is set to the one sample
    [0], without abscissae. *)
Theorem unused_curve_is_one_zero (self : Widget F) :
  c1 self = item_text FrequencyModulation
  \/ c1 self = item_text TwoToneFrequencyModulation ->
  exists self',
    update self = Returns self'
    /\ curve2b self' = setData1 (Array [lit 0])
    /\ length (samples (yData (curve2b self'))) = 1.
Proof.
  intros Hc. exists (updated self). split; [apply update_Returns |].
  change (curve2b (updated self)) with (snd (error_traces self)).
  destruct Hc as [Hc | Hc];
    [rewrite (error_traces_FM self Hc) | rewrite (error_traces_TTFMS self Hc)];
    split; reflexivity.
Qed.

(** C6.  [laser] returns, for every sample [t] of the time grid,
    [cos(laserFreq·t·π/180) · cos(modIndex1·sin(modFreq1·t·π/180))
       · cos(modIndex2·sin(modFreq2·t·π/180))],
    each angle divided by 180 after its multiplication by π: sample [i] of
    the field is the formula at sample [i] of the grid. *)
Theorem laser_field (self : Widget F) (val : value F) :
  laser (frame self) val
  = Returns (Array (map (spec_E (params self)) t_grid))
  /\ length (map (spec_E (params self)) t_grid) = length (t_grid (F := F))
  /\ forall (i : nat) (d : F),
       nth i (map (spec_E (params self)) t_grid) (spec_E (params self) d)
       = spec_E (params self) (nth i t_grid d).
Proof.
  split; [| split].
  - rewrite laser_Array. reflexivity.
  - apply length_map.
  - intros i d. apply map_nth.
Qed.

(** C10.  [laser] returns the same array whatever it is applied to; the
    time-domain curve and the spectrum [update] sets are computed over the
    1000 samples of the time grid, although [laser] is applied to the
    detuning grid. *)
Theorem laser_ignores_argument (self : Widget F) (e : Locals F)
        (a b : value F) :
  laser e a = laser e b
  /\ length (t_grid (F := F)) = 1000
  /\ laser (frame self) (Array x_grid)
     = Returns (Array (map (spec_E (params self)) t_grid))
  /\ exists self',
       update self = Returns self'
       /\ curve4 self' = setData1 (Array (map (spec_E (params self)) t_grid))
       /\ curve3 self'
          = setData1 (abs_fft (Array (map (spec_E (params self)) t_grid))).
Proof.
  split; [reflexivity |].
  split; [apply length_linspace |].
  split; [now rewrite laser_Array |].
  exists (updated self). split; [apply update_Returns |].
  split; reflexivity.
Qed.

(** C2.  With the combo box on "FM and TTFMS", the frame in which the
    lambdas run has [fmfmod = fmod1 - fmod2]; [FMerrorsig] in that frame
    returns, on every array, what it returns in a run on "Frequency
    Modulation" with the first modulation frequency set to that
    difference, and so does the first error curve.  On any other text
    [fmfmod] keeps the value of the slider. *)
Theorem combined_scheme_shift (self : Widget F) :
  c1 self = item_text CombinedFMAndTTFMS ->
  let p' := with_modFreq1 (fsub (modFreq1 (params self))
                                (modFreq2 (params self))) (params self) in
  (exists e w,
      dispatch (frame self) self = Returns (e, w)
      /\ fmfmod e = fsub (w2 self) (w3 self)
      /\ forall ws,
           FMerrorsig e (Array ws) = FMerrorsig (frame (retuned self)) (Array ws)
           /\ FMerrorsig e (Array ws)
              = Returns (Array (map (spec_errorFM p') ws)))
  /\ (exists r r',
        update self = Returns r
        /\ update (retuned self) = Returns r'
        /\ curve2 r = curve2 r'
        /\ yData (curve2 r) = Array (map (spec_errorFM p') x_grid))
  /\ (forall other : Widget F,
        c1 other <> item_text CombinedFMAndTTFMS ->
        exists e w,
          dispatch (frame other) other = Returns (e, w)
          /\ fmfmod e = w2 other).
Proof.
  intros Hc p'. split; [| split].
  - destruct (dispatch_Returns self) as (e & Hd & Hf & Hp & _).
    exists e. eexists. split; [exact Hd |].
    unfold final_fmfmod in Hf. rewrite Hc in Hf. simpl in Hf.
    split; [exact Hf |].
    intros ws. rewrite !FMerrorsig_Array, Hf, Hp. split; reflexivity.
  - exists (updated self), (updated (retuned self)).
    split; [apply update_Returns |]. split; [apply update_Returns |].
    change (curve2 (updated self)) with (fst (error_traces self)).
    change (curve2 (updated (retuned self)))
      with (fst (error_traces (retuned self))).
    rewrite (error_traces_combined self Hc).
    rewrite (error_traces_FM (retuned self) eq_refl).
    split; reflexivity.
  - intros other Hne.
    destruct (dispatch_Returns other) as (e & Hd & Hf & _).
    exists e. eexists. split; [exact Hd |].
    rewrite Hf. unfold final_fmfmod.
    destruct (String.eqb (c1 other) "FM and TTFMS") eqn:Heq;
      [| reflexivity].
    apply String.eqb_eq in Heq. contradiction.
Qed.

End Schemes.

(** ** Properties that need the reals *)

Section OverReals.

Local Open Scope R_scope.

Lemma xis_zero_pos (u : R) : 0 < u -> xis_zero (Fin u) = false.
Proof. intros H. unfold xis_zero. now rewrite (sign_of_pos H). Qed.

Lemma xis_zero_zero : xis_zero (Fin 0) = true.
Proof. unfold xis_zero. now rewrite sign_of_zero. Qed.

(** C3.  With a line width above zero, [absorption] returns, for a finite
    number, [1 − 0.5·exp(−(laserFreq + ω)² / (2·lineWidth²))], and for an
    array of finite numbers the array of these values, each computed from
    the sample at its own position. *)
Theorem absorption_transmission (e : Locals xreal) (lw lf : R) :
  gamma e = Fin lw -> flaser e = Fin lf -> 0 < lw ->
  (forall w : R,
      absorption e (Scalar (Fin w)) = Returns (Scalar (Fin (T_real lw lf w))))
  /\ (forall ws : list R,
        absorption e (Array (map Fin ws))
        = Returns (Array (map (fun w => Fin (T_real lw lf w)) ws))).
Proof.
  intros Hg Hf Hlw.
  assert (Hne : lw <> 0) by lra.
  split.
  - intros w. rewrite absorption_Scalar, Hg.
    change (is_zero (fmul (lit 2) (fpow2 (Fin lw))))
      with (xis_zero (Fin (2 * (lw * lw)))).
    rewrite (xis_zero_pos (two_sq_pos Hne)).
    now rewrite (@spec_T_finite (frame_params e) lw lf w Hg Hf Hne).
  - intros ws. rewrite absorption_Array, map_map. do 2 f_equal.
    apply map_ext. intros w.
    exact (@spec_T_finite (frame_params e) lw lf w Hg Hf Hne).
Qed.

(** With a line width of zero a number makes [absorption] raise, where an
    array does not. *)
Lemma absorption_Scalar_zero_width (e : Locals xreal) (w : xreal) :
  gamma e = Fin 0 -> absorption e (Scalar w) = Raises ZeroDivisionError.
Proof.
  intros Hg. rewrite absorption_Scalar, Hg.
  change (is_zero (fmul (lit 2) (fpow2 (Fin 0))))
    with (xis_zero (Fin (2 * (0 * 0)))).
  replace (2 * (0 * 0)) with 0 by ring. now rewrite xis_zero_zero.
Qed.

Lemma T_real_even (lw w : R) : T_real lw 0 (- w) = T_real lw 0 w.
Proof.
  unfold T_real. do 4 f_equal. ring.
Qed.

Lemma errorFM_real_odd (lw m s w : R) :
  errorFM_real lw 0 m s (- w) = - errorFM_real lw 0 m s w.
Proof.
  unfold errorFM_real.
  replace (- w - s) with (- (w + s)) by ring.
  replace (- w + s) with (- (w - s)) by ring.
  rewrite !T_real_even. ring.
Qed.

Lemma FMerrorsig_finite (e : Locals xreal) (lw lf m s : R) (ws : list R) :
  gamma e = Fin lw -> flaser e = Fin lf -> M1 e = Fin m ->
  fmfmod e = Fin s -> lw <> 0 ->
  FMerrorsig e (Array (map Fin ws))
  = Returns (Array (map (fun w => Fin (errorFM_real lw lf m s w)) ws)).
Proof.
  intros Hg Hf Hm Hs Hlw. rewrite FMerrorsig_Array, map_map. do 2 f_equal.
  apply map_ext. intros w.
  apply spec_errorFM_finite; try assumption; reflexivity.
Qed.

(** C7.  With the laser frequency at zero and a line width above zero, the
    single-tone error signal is odd in the detuning: on the mirrored
    detunings [FMerrorsig] returns the negated samples,
    [errorFM(−ω) = −errorFM(ω)]. *)
Theorem FMerrorsig_antisymmetric (e : Locals xreal) (lw m s : R)
        (ws : list R) :
  gamma e = Fin lw -> flaser e = Fin 0 -> M1 e = Fin m ->
  fmfmod e = Fin s -> 0 < lw ->
  exists rs : list R,
    FMerrorsig e (Array (map Fin ws)) = Returns (Array (map Fin rs))
    /\ FMerrorsig e (Array (map Fin (map Ropp ws)))
       = Returns (Array (map Fin (map Ropp rs)))
    /\ rs = map (errorFM_real lw 0 m s) ws.
Proof.
  intros Hg Hf Hm Hs Hlw.
  assert (Hne : lw <> 0) by lra.
  exists (map (errorFM_real lw 0 m s) ws).
  rewrite !(@FMerrorsig_finite e lw 0 m s _ Hg Hf Hm Hs Hne), !map_map.
  split; [reflexivity |]. split; [| reflexivity].
  do 2 f_equal. apply map_ext. intros w. now rewrite errorFM_real_odd.
Qed.

Lemma cadd_finite (a b : R * R) :
  cadd (finite_pair a) (finite_pair b) = finite_pair (Cplus a b).
Proof. reflexivity. Qed.

Lemma fold_cadd_finite (l : list (R * R)) (z : R * R) :
  fold_left cadd (map finite_pair l) (finite_pair z)
  = finite_pair (fold_left Cplus l z).
Proof.
  revert z. induction l as [| c l IH]; intros z; simpl; [reflexivity |].
  rewrite cadd_finite. apply IH.
Qed.

Lemma Cplus_assoc (a b c : R * R) : Cplus (Cplus a b) c = Cplus a (Cplus b c).
Proof. unfold Cplus. simpl. f_equal; ring. Qed.

Lemma Cplus_zero_r (a : R * R) : Cplus a (0, 0) = a.
Proof. destruct a as [u v]. unfold Cplus. simpl. f_equal; ring. Qed.

(** The sum taken from the left, as [fft_entry] takes it, is the sum taken
    from the right. *)
Lemma fold_left_Cplus (l : list (R * R)) (z : R * R) :
  fold_left Cplus l z = Cplus z (fold_right Cplus (0, 0) l).
Proof.
  revert z. induction l as [| c l IH]; intros z; simpl.
  - now rewrite Cplus_zero_r.
  - rewrite IH. apply Cplus_assoc.
Qed.

Lemma twiddle_finite (n j k : nat) :
  (0 < n)%nat ->
  twiddle n j k
  = finite_pair (Cexp_i (- (2 * PI * INR j * INR k / INR n))).
Proof.
  intros Hn. unfold twiddle, finite_pair, Cexp_i. simpl.
  assert (Hpos : 0 < IZR (Z.of_nat n)).
  { apply IZR_lt. lia. }
  rewrite (xdiv_pos _ Hpos). simpl.
  rewrite <- !INR_IZR_INZ, mult_INR.
  replace (2 * PI * (INR j * INR k) / INR n)
    with (2 * PI * INR j * INR k / INR n) by (unfold Rdiv; ring).
  reflexivity.
Qed.

Lemma fft_term_finite (es : list R) (k j : nat) :
  (0 < length es)%nat ->
  cmul (nth j (map Fin es) (lit 0), lit 0) (twiddle (length es) j k)
  = finite_pair (dft_term es k j).
Proof.
  intros Hn. rewrite (twiddle_finite j k Hn).
  change (lit 0) with (Fin 0). rewrite (map_nth Fin es 0 j).
  reflexivity.
Qed.

Lemma fft_entry_finite (es : list R) (k : nat) :
  (0 < length es)%nat ->
  fft_entry (map Fin es) k = finite_pair (dft_sum es k).
Proof.
  intros Hn. unfold fft_entry. rewrite length_map.
  rewrite (map_ext_in _ (fun j => finite_pair (dft_term es k j)))
    by (intros j _; apply fft_term_finite; exact Hn).
  rewrite <- (map_map (dft_term es k) finite_pair).
  change czero with (finite_pair (0, 0)).
  rewrite fold_cadd_finite, fold_left_Cplus.
  unfold dft_sum. f_equal.
  change (fun j : nat =>
            Cmult (nth j es 0, 0)
                  (Cexp_i (- (2 * PI * INR j * INR k / INR (length es)))))
    with (dft_term es k).
  destruct (fold_right Cplus (0, 0) (map (dft_term es k) (seq 0 (length es))))
    as [u v].
  unfold Cplus. simpl. apply f_equal2; ring.
Qed.

Lemma cabs_finite (c : R * R) : cabs (finite_pair c) = Fin (Cmod c).
Proof.
  destruct c as [u v]. unfold Cmod. cbn [fst snd]. rewrite !pow2_mul.
  unfold cabs, finite_pair. simpl.
  rewrite xsqrt_nonneg by nra. reflexivity.
Qed.

(** C9.  [abs(fft(E))] of a curve of [N] finite samples has [N] samples;
    sample [k] is the magnitude [|Σ_j E_j·exp(−2πi·j·k/N)|], a real number
    that is not negative. *)
Theorem spectrum_magnitude (es : list R) :
  abs_fft (Array (map Fin es))
  = Array (map (fun k => Fin (dft_magnitude es k)) (seq 0 (length es)))
  /\ length (samples (abs_fft (Array (map Fin es)))) = length es
  /\ forall k : nat, 0 <= dft_magnitude es k.
Proof.
  split; [| split].
  - unfold abs_fft, fft. simpl samples. rewrite length_map, map_map.
    f_equal. apply map_ext_in. intros k Hk.
    apply in_seq in Hk.
    rewrite fft_entry_finite by lia. apply cabs_finite.
  - unfold abs_fft, fft. simpl samples.
    now rewrite !length_map, length_seq.
  - intros k. unfold dft_magnitude, Cmod. apply sqrt_pos.
Qed.

End OverReals.

(** ** A line width of zero *)

Section ZeroWidth.

Local Open Scope R_scope.


Lemma map_const_repeat (A B : Type) (c : B) (l : list A) :
  map (fun _ => c) l = repeat c (length l).
Proof.
  induction l as [| a l IH]; simpl; [reflexivity | now rewrite IH].
Qed.

(** The samples of a grid of two points or more are finite: sample [i] is
    [i·(stop − start)/(num − 1) + start], the last one [stop]. *)
Lemma linspace_finite (a b : Z) (n : nat) :
  (2 <= n)%nat ->
  linspace a b n
  = set_last (Fin (IZR b))
      (map (fun i => Fin (IZR (Z.of_nat i)
                          * ((IZR b - IZR a) / IZR (Z.of_nat n - 1))
                          + IZR a))
           (seq 0 n)).
Proof.
  intros Hn. unfold linspace.
  assert (Hpos : 0 < IZR (Z.of_nat n - 1)) by (apply IZR_lt; lia).
  change (fdiv (fsub (lit b) (lit a)) (lit (Z.of_nat n - 1)))
    with (xdiv (Fin (IZR b + - IZR a)) (Fin (IZR (Z.of_nat n - 1)))).
  rewrite (xdiv_pos _ Hpos). reflexivity.
Qed.




End ZeroWidth.

(** ** The scenario of the specification

    Each property that has a premise, at the settings of the scenario. *)

Section Scenario.

Local Open Scope R_scope.

Lemma FM_error_curve_scenario :
  c1 (scenario FrequencyModulation) = item_text FrequencyModulation
  /\ (forall ws,
        FMerrorsig (frame (scenario FrequencyModulation)) (Array ws)
        = Returns (Array (map (spec_errorFM
                                 (params (scenario FrequencyModulation))) ws)))
  /\ exists self',
       update (scenario FrequencyModulation) = Returns self'
       /\ curve2 self'
          = setData2 (Array x1_grid)
                     (Array (map (spec_errorFM
                                    (params (scenario FrequencyModulation)))
                                 x_grid)).
Proof.
  split; [reflexivity |].
  apply (FM_error_curve (scenario FrequencyModulation)). reflexivity.
Defined.

Lemma TTFMS_error_curve_scenario :
  c1 (scenario TwoToneFrequencyModulation)
  = item_text TwoToneFrequencyModulation
  /\ (forall ws,
        TTFMS (frame (scenario TwoToneFrequencyModulation)) (Array ws)
        = Returns
            (Array (map (spec_errorTTFMS
                           (params (scenario TwoToneFrequencyModulation)))
                        ws)))
  /\ exists self',
       update (scenario TwoToneFrequencyModulation) = Returns self'
       /\ curve2 self'
          = setData2 (Array x1_grid)
              (Array (map (spec_errorTTFMS
                             (params (scenario TwoToneFrequencyModulation)))
                          x_grid)).
Proof.
  split; [reflexivity |].
  apply (TTFMS_error_curve (scenario TwoToneFrequencyModulation)).
  reflexivity.
Defined.

Lemma unused_curve_scenario :
  (c1 (scenario TwoToneFrequencyModulation)
   = item_text FrequencyModulation
   \/ c1 (scenario TwoToneFrequencyModulation)
      = item_text TwoToneFrequencyModulation)
  /\ exists self',
       update (scenario TwoToneFrequencyModulation) = Returns self'
       /\ curve2b self' = setData1 (Array [lit 0])
       /\ length (samples (yData (curve2b self'))) = 1%nat.
Proof.
  split; [right; reflexivity |].
  apply (unused_curve_is_one_zero (scenario TwoToneFrequencyModulation)).
  right. reflexivity.
Defined.

Lemma combined_scheme_scenario :
  c1 (scenario CombinedFMAndTTFMS) = item_text CombinedFMAndTTFMS
  /\ (exists e w,
        dispatch (frame (scenario CombinedFMAndTTFMS))
                 (scenario CombinedFMAndTTFMS)
        = Returns (e, w)
        /\ fmfmod e = Fin (5 + - 3)
        /\ forall ws,
             FMerrorsig e (Array ws)
             = FMerrorsig (frame (retuned (scenario CombinedFMAndTTFMS)))
                          (Array ws)
             /\ FMerrorsig e (Array ws)
                = Returns
                    (Array (map (spec_errorFM
                                   (with_modFreq1 (Fin (5 + - 3))
                                      (params (scenario CombinedFMAndTTFMS))))
                                ws)))
  /\ (exists r r',
        update (scenario CombinedFMAndTTFMS) = Returns r
        /\ update (retuned (scenario CombinedFMAndTTFMS)) = Returns r'
        /\ curve2 r = curve2 r'
        /\ yData (curve2 r)
           = Array (map (spec_errorFM
                           (with_modFreq1 (Fin (5 + - 3))
                              (params (scenario CombinedFMAndTTFMS))))
                        x_grid))
  /\ (forall other : Widget xreal,
        c1 other <> item_text CombinedFMAndTTFMS ->
        exists e w,
          dispatch (frame other) other = Returns (e, w)
          /\ fmfmod e = w2 other).
Proof.
  split; [reflexivity |].
  exact (combined_scheme_shift (scenario CombinedFMAndTTFMS) eq_refl).
Defined.

Lemma absorption_transmission_scenario :
  gamma (frame (scenario FrequencyModulation)) = Fin 10
  /\ flaser (frame (scenario FrequencyModulation)) = Fin 70
  /\ 0 < 10
  /\ absorption (frame (scenario FrequencyModulation)) (Scalar (Fin (-70)))
     = Returns (Scalar (Fin (T_real 10 70 (-70))))
  /\ absorption (frame (scenario FrequencyModulation))
                (Array (map Fin [-70; 0]))
     = Returns (Array (map (fun w => Fin (T_real 10 70 w)) [-70; 0])).
Proof.
  assert (H : 0 < 10) by lra.
  split; [reflexivity |]. split; [reflexivity |]. split; [exact H |].
  destruct (@absorption_transmission (frame (scenario FrequencyModulation))
                                     10 70 eq_refl eq_refl H) as [Hs Ha].
  split; [apply Hs | apply Ha].
Defined.

Lemma FMerrorsig_antisymmetric_scenario :
  gamma (frame centred) = Fin 10
  /\ flaser (frame centred) = Fin 0
  /\ M1 (frame centred) = Fin 1
  /\ fmfmod (frame centred) = Fin 5
  /\ 0 < 10
  /\ exists rs : list R,
       FMerrorsig (frame centred) (Array (map Fin [2; 7]))
       = Returns (Array (map Fin rs))
       /\ FMerrorsig (frame centred) (Array (map Fin (map Ropp [2; 7])))
          = Returns (Array (map Fin (map Ropp rs)))
       /\ rs = map (errorFM_real 10 0 1 5) [2; 7].
Proof.
  assert (H : 0 < 10) by lra.
  repeat (split; [reflexivity |]). split; [exact H |].
  exact (@FMerrorsig_antisymmetric (frame centred) 10 1 5 [2; 7]
           eq_refl eq_refl eq_refl eq_refl H).
Defined.

End Scenario.

(** * Further properties of the lambdas *)

Section Lineshape.

Local Open Scope R_scope.

Lemma T_real_bounds (lw lf w : R) : lw <> 0 -> 0.5 <= T_real lw lf w < 1.
Proof.
  intros Hlw. unfold T_real.
  set (y := - (lf + w) ^ 2 / (2 * lw ^ 2)).
  assert (Hy : y <= 0).
  { unfold y, Rdiv.
    assert (Hinv : 0 < / (2 * lw ^ 2)).
    { apply Rinv_0_lt_compat. rewrite pow2_mul. now apply two_sq_pos. }
    pose proof (pow2_ge_0 (lf + w)) as Hsq.
    nra. }
  pose proof (exp_pos y) as Hpos.
  assert (Hle : exp y <= 1).
  { destruct Hy as [Hlt | Heq].
    - left. rewrite <- exp_0. now apply exp_increasing.
    - right. rewrite Heq. apply exp_0. }
  lra.
Qed.

Lemma T_real_mirror (lw lf w : R) :
  T_real lw lf (mirror lf w) = T_real lw lf w.
Proof.
  unfold T_real, mirror. do 4 f_equal. ring.
Qed.

Lemma T_real_centre (lw lf : R) : T_real lw lf (- lf) = 0.5.
Proof.
  unfold T_real.
  replace (- (lf + - lf) ^ 2 / (2 * lw ^ 2)) with 0
    by (unfold Rdiv; ring).
  rewrite exp_0. lra.
Qed.

(** The samples [absorption] returns for finite detunings, with a line
    width that is not zero. *)
Lemma absorption_finite (e : Locals xreal) (lw lf : R) (ws : list R) :
  gamma e = Fin lw -> flaser e = Fin lf -> lw <> 0 ->
  absorption e (Array (map Fin ws))
  = Returns (Array (map Fin (map (T_real lw lf) ws))).
Proof.
  intros Hg Hf Hlw. rewrite absorption_Array, !map_map. do 2 f_equal.
  apply map_ext. intros w.
  exact (@spec_T_finite (frame_params e) lw lf w Hg Hf Hlw).
Qed.

(** The transmission [absorption] returns lies between the depth of the
    dip, 0.5, and the baseline 1, both ends included: far from the line
    the exponential underflows in doubles and the sample is 1 itself. *)
Theorem absorption_within_half_and_one (e : Locals xreal) (lw lf : R)
        (ws : list R) :
  gamma e = Fin lw -> flaser e = Fin lf -> lw <> 0 ->
  exists rs : list R,
    absorption e (Array (map Fin ws)) = Returns (Array (map Fin rs))
    /\ length rs = length ws
    /\ Forall (fun r => 0.5 <= r <= 1) rs.
Proof.
  intros Hg Hf Hlw. exists (map (T_real lw lf) ws).
  split; [now apply absorption_finite |].
  split; [apply length_map |].
  apply Forall_forall. intros r Hr.
  apply in_map_iff in Hr. destruct Hr as (w & <- & _).
  pose proof (@T_real_bounds lw lf w Hlw) as Hb. lra.
Qed.

(** The dip is centred where [laserFreq + ω = 0]: there the transmission
    is 0.5, and two detunings at the same distance on either side of that
    centre have the same transmission. *)
Theorem absorption_symmetric_about_centre (e : Locals xreal) (lw lf : R)
        (ws : list R) :
  gamma e = Fin lw -> flaser e = Fin lf -> lw <> 0 ->
  absorption e (Array (map Fin (map (mirror lf) ws)))
  = absorption e (Array (map Fin ws))
  /\ absorption e (Array [Fin (- lf)]) = Returns (Array [Fin 0.5]).
Proof.
  intros Hg Hf Hlw. split.
  - rewrite !(@absorption_finite e lw lf _ Hg Hf Hlw), !map_map.
    do 2 f_equal. apply map_ext. intros w. now rewrite T_real_mirror.
  - change [Fin (- lf)] with (map Fin [- lf]).
    rewrite (@absorption_finite e lw lf _ Hg Hf Hlw). simpl.
    now rewrite T_real_centre.
Qed.

End Lineshape.

Section LineWidth.

Local Open Scope R_scope.

Lemma spec_T_width_sign (p q : SimulationParameters xreal) (g : R)
      (w : xreal) :
  lineWidth p = Fin (- g) -> lineWidth q = Fin g ->
  laserFreq p = laserFreq q ->
  spec_T p w = spec_T q w.
Proof.
  intros Hp Hq Hf. unfold spec_T. rewrite Hp, Hq, Hf.
  change (fpow2 (Fin (- g))) with (Fin (- g * - g)).
  change (fpow2 (Fin g)) with (Fin (g * g)).
  replace (- g * - g) with (g * g) by ring. reflexivity.
Qed.

(** The line width enters [absorption] through its square only: a negative
    line width gives, on any array, what its absolute value gives. *)
Theorem absorption_ignores_width_sign (e e' : Locals xreal) (g : R)
        (ws : list xreal) :
  gamma e = Fin (- g) -> gamma e' = Fin g -> flaser e = flaser e' ->
  absorption e (Array ws) = absorption e' (Array ws).
Proof.
  intros Hg Hg' Hf. rewrite !absorption_Array. do 2 f_equal.
  apply map_ext. intros w.
  exact (@spec_T_width_sign (frame_params e) (frame_params e') g w Hg Hg' Hf).
Qed.

Lemma spec_T_zero_width_centre (p : SimulationParameters xreal) (lf w : R) :
  lineWidth p = Fin 0 -> laserFreq p = Fin lf -> lf + w = 0 ->
  spec_T p (Fin w) = NaN.
Proof.
  intros Hg Hf H0. unfold spec_T. rewrite Hg, Hf. simpl. rewrite H0.
  replace (2 * (0 * 0)) with 0 by ring.
  replace (- (0 * 0)) with 0 by ring.
  unfold xdiv, signed_inf. rewrite !sign_of_zero. reflexivity.
Qed.

(** With a line width of zero, [absorption] on an array divides by zero
    without raising: the sample is 1 away from the line centre, where the
    quotient is minus infinity, and NaN at the line centre, where it is
    [0/0]. *)
Theorem absorption_zero_width (e : Locals xreal) (lf : R) (ws : list R) :
  gamma e = Fin 0 -> flaser e = Fin lf ->
  absorption e (Array (map Fin ws))
  = Returns (Array (map (fun w => if Req_dec_T (lf + w) 0 then NaN
                                  else Fin 1) ws)).
Proof.
  intros Hg Hf. rewrite absorption_Array, map_map. do 2 f_equal.
  apply map_ext. intros w.
  destruct (Req_dec_T (lf + w) 0) as [H0 | Hne].
  - exact (@spec_T_zero_width_centre (frame_params e) lf w Hg Hf H0).
  - exact (@spec_T_zero_width (frame_params e) lf w Hg Hf Hne).
Qed.

(** With a line width of zero, each of the three lambdas raises
    [ZeroDivisionError] when it is applied to a number instead of an
    array. *)
Theorem zero_width_number_raises (e : Locals xreal) (w : xreal) :
  gamma e = Fin 0 ->
  absorption e (Scalar w) = Raises ZeroDivisionError
  /\ FMerrorsig e (Scalar w) = Raises ZeroDivisionError
  /\ TTFMS e (Scalar w) = Raises ZeroDivisionError.
Proof.
  intros Hg. split; [| split].
  - now apply absorption_Scalar_zero_width.
  - unfold FMerrorsig. simpl vdiv. rewrite xis_zero_pos by lra.
    cbv beta iota delta [bind].
    now rewrite (absorption_Scalar_zero_width e w Hg).
  - unfold TTFMS. simpl vdiv. rewrite !xis_zero_pos by lra.
    cbv beta iota delta [bind].
    change (vsub (Scalar w) (Scalar (fmod1 e)))
      with (Scalar (fsub w (fmod1 e))).
    now rewrite (absorption_Scalar_zero_width e _ Hg).
Qed.

End LineWidth.

Section ErrorSignals.

Local Open Scope R_scope.

Lemma mirror_minus (lf w s : R) : mirror lf w - s = mirror lf (w + s).
Proof. unfold mirror. ring. Qed.

Lemma mirror_plus (lf w s : R) : mirror lf w + s = mirror lf (w - s).
Proof. unfold mirror. ring. Qed.

Lemma errorFM_real_mirror (lw lf m s w : R) :
  errorFM_real lw lf m s (mirror lf w) = - errorFM_real lw lf m s w.
Proof.
  unfold errorFM_real.
  rewrite mirror_minus, mirror_plus, !T_real_mirror. ring.
Qed.

Lemma errorFM_real_centre (lw lf m s : R) : errorFM_real lw lf m s (- lf) = 0.
Proof.
  pose proof (errorFM_real_mirror lw lf m s (- lf)) as H.
  replace (mirror lf (- lf)) with (- lf) in H by (unfold mirror; ring).
  lra.
Qed.

(** Rounding left out, the single-tone error signal is odd about the line
    centre [ω = −laserFreq], whatever the laser frequency.  [FMerrorsig]
    evaluates the real function [errorFM_real] at each detuning; that
    function takes opposite values at two detunings mirrored about the
    centre, and is zero at the centre.  The statement is about the function
    over the reals: the script rounds every operation to a double, so two
    mirrored samples it computes can differ in their last bits when the
    centre is not zero. *)
Theorem FMerrorsig_odd_about_centre (e : Locals xreal) (lw lf m s : R)
        (ws : list R) :
  gamma e = Fin lw -> flaser e = Fin lf -> M1 e = Fin m ->
  fmfmod e = Fin s -> lw <> 0 ->
  FMerrorsig e (Array (map Fin ws))
  = Returns (Array (map (fun w => Fin (errorFM_real lw lf m s w)) ws))
  /\ (forall w : R,
        errorFM_real lw lf m s (mirror lf w) = - errorFM_real lw lf m s w)
  /\ errorFM_real lw lf m s (- lf) = 0.
Proof.
  intros Hg Hf Hm Hs Hlw.
  split; [exact (@FMerrorsig_finite e lw lf m s ws Hg Hf Hm Hs Hlw) |].
  split; [intros w; apply errorFM_real_mirror | apply errorFM_real_centre].
Qed.

Lemma spec_errorTTFMS_finite (p : SimulationParameters xreal)
      (lw lf m1 m2 f1 f2 w : R) :
  lineWidth p = Fin lw -> laserFreq p = Fin lf ->
  modIndex1 p = Fin m1 -> modIndex2 p = Fin m2 ->
  modFreq1 p = Fin f1 -> modFreq2 p = Fin f2 -> lw <> 0 ->
  spec_errorTTFMS p (Fin w) = Fin (errorTTFMS_real lw lf m1 m2 f1 f2 w).
Proof.
  intros Hg Hf Hm1 Hm2 Hf1 Hf2 Hlw. unfold spec_errorTTFMS, errorTTFMS_real.
  rewrite Hm1, Hm2, Hf1, Hf2, pow2_mul. simpl.
  rewrite !(@spec_T_finite p lw lf _ Hg Hf Hlw). simpl.
  rewrite !xdiv_pos by lra. reflexivity.
Qed.

Lemma TTFMS_finite (e : Locals xreal) (lw lf m1 m2 f1 f2 : R)
      (ws : list R) :
  gamma e = Fin lw -> flaser e = Fin lf -> M1 e = Fin m1 -> M2 e = Fin m2 ->
  fmod1 e = Fin f1 -> fmod2 e = Fin f2 -> lw <> 0 ->
  TTFMS e (Array (map Fin ws))
  = Returns (Array (map (fun w => Fin (errorTTFMS_real lw lf m1 m2 f1 f2 w))
                        ws)).
Proof.
  intros Hg Hf Hm1 Hm2 Hf1 Hf2 Hlw. rewrite TTFMS_Array, map_map.
  do 2 f_equal. apply map_ext. intros w.
  now apply spec_errorTTFMS_finite.
Qed.

Lemma errorTTFMS_real_mirror (lw lf m1 m2 f1 f2 w : R) :
  errorTTFMS_real lw lf m1 m2 f1 f2 (mirror lf w)
  = errorTTFMS_real lw lf m1 m2 f1 f2 w.
Proof.
  unfold errorTTFMS_real.
  rewrite !mirror_minus, !mirror_plus, !T_real_mirror. ring.
Qed.

(** Rounding left out, the two-tone error signal is even about the line
    centre.  [TTFMS] evaluates the real function [errorTTFMS_real] at each
    detuning, and that function takes the same value at two detunings
    mirrored about the centre.  The statement is about the function over
    the reals: the script rounds every operation to a double, so two
    mirrored samples it computes can differ in their last bits when the
    centre is not zero. *)
Theorem TTFMS_even_about_centre (e : Locals xreal)
        (lw lf m1 m2 f1 f2 : R) (ws : list R) :
  gamma e = Fin lw -> flaser e = Fin lf -> M1 e = Fin m1 -> M2 e = Fin m2 ->
  fmod1 e = Fin f1 -> fmod2 e = Fin f2 -> lw <> 0 ->
  TTFMS e (Array (map Fin ws))
  = Returns (Array (map (fun w => Fin (errorTTFMS_real lw lf m1 m2 f1 f2 w))
                        ws))
  /\ forall w : R,
       errorTTFMS_real lw lf m1 m2 f1 f2 (mirror lf w)
       = errorTTFMS_real lw lf m1 m2 f1 f2 w.
Proof.
  intros Hg Hf Hm1 Hm2 Hf1 Hf2 Hlw.
  split;
    [exact (@TTFMS_finite e lw lf m1 m2 f1 f2 ws Hg Hf Hm1 Hm2 Hf1 Hf2 Hlw) |].
  intros w. apply errorTTFMS_real_mirror.
Qed.

(** With the first modulation index at zero both error signals vanish at
    every finite detuning. *)
Theorem zero_index_zero_signal (e : Locals xreal)
        (lw lf m2 f1 f2 s : R) (ws : list R) :
  gamma e = Fin lw -> flaser e = Fin lf -> M1 e = Fin 0 -> M2 e = Fin m2 ->
  fmod1 e = Fin f1 -> fmod2 e = Fin f2 -> fmfmod e = Fin s -> lw <> 0 ->
  FMerrorsig e (Array (map Fin ws))
  = Returns (Array (map (fun _ => Fin 0) ws))
  /\ TTFMS e (Array (map Fin ws))
     = Returns (Array (map (fun _ => Fin 0) ws)).
Proof.
  intros Hg Hf Hm1 Hm2 Hf1 Hf2 Hs Hlw. split.
  - rewrite (@FMerrorsig_finite e lw lf 0 s _ Hg Hf Hm1 Hs Hlw).
    do 2 f_equal. apply map_ext. intros w. f_equal.
    unfold errorFM_real. unfold Rdiv. ring.
  - rewrite (@TTFMS_finite e lw lf 0 m2 f1 f2 _ Hg Hf Hm1 Hm2 Hf1 Hf2 Hlw).
    do 2 f_equal. apply map_ext. intros w. f_equal.
    unfold errorTTFMS_real. unfold Rdiv. ring.
Qed.

End ErrorSignals.

(** * Further properties of [update] *)

Section Grids.

Local Open Scope R_scope.

Lemma map_set_last (A B : Type) (f : A -> B) (v : A) (l : list A) :
  map f (set_last v l) = set_last (f v) (map f l).
Proof.
  induction l as [| a [| b l] IH]; simpl in *; try reflexivity.
  now rewrite IH.
Qed.

(** The samples of a grid of two points or more are finite. *)
Lemma linspace_reals (a b : Z) (n : nat) :
  (2 <= n)%nat -> linspace a b n = map Fin (linspace_real a b n).
Proof.
  intros Hn. rewrite linspace_finite by exact Hn.
  unfold linspace_real. now rewrite map_set_last, map_map.
Qed.

Lemma length_linspace_real (a b : Z) (n : nat) :
  length (linspace_real a b n) = n.
Proof.
  unfold linspace_real. now rewrite length_set_last, length_map, length_seq.
Qed.

Lemma x_grid_reals : x_grid = map Fin (linspace_real (-10000) 10000 1000).
Proof. unfold x_grid. apply linspace_reals. lia. Qed.

Lemma t_grid_reals : t_grid = map Fin (linspace_real 0 1000 1000).
Proof. unfold t_grid. apply linspace_reals. lia. Qed.

Lemma x1_grid_reals : x1_grid = map Fin (linspace_real 0 10000 1000).
Proof. unfold x1_grid. apply linspace_reals. lia. Qed.

Lemma x1_of_x :
  linspace_real 0 10000 1000
  = map (fun w => (w + 10000) / 2) (linspace_real (-10000) 10000 1000).
Proof.
  unfold linspace_real. rewrite map_set_last, map_map.
  f_equal; [lra |].
  apply map_ext. intros i.
  change (Z.of_nat 1000 - 1)%Z with 999%Z. lra.
Qed.

(** The abscissae [x1] against which [update] plots the absorption curve
    are not the detunings [x] at which it evaluates it.  In the curve it
    sets, the abscissae are the grid of 1000 points from 0 to 10000 and the
    ordinates are [T] at the grid of 1000 points from -10000 to 10000;
    rounding left out, the abscissa at each position is
    [(detuning + 10000) / 2].  That last relation is one between the two
    grids over the reals: the doubles NumPy computes for them satisfy it up
    to the rounding of each grid point, not bit for bit. *)
Theorem abscissa_is_half_shifted_detuning (self : Widget xreal) :
  (exists r : Widget xreal,
      update self = Returns r
      /\ curve1 r
         = setData2 (Array (map Fin (linspace_real 0 10000 1000)))
                    (Array (map (spec_T (params self))
                                (map Fin (linspace_real (-10000) 10000 1000)))))
  /\ length (linspace_real (-10000) 10000 1000) = 1000%nat
  /\ linspace_real 0 10000 1000
     = map (fun w => (w + 10000) / 2) (linspace_real (-10000) 10000 1000).
Proof.
  split; [| split].
  - exists (updated self). split; [apply update_Returns |].
    rewrite <- x1_grid_reals, <- x_grid_reals. reflexivity.
  - apply length_linspace_real.
  - apply x1_of_x.
Qed.

End Grids.

Section ZeroLineWidth.

Local Open Scope R_scope.


End ZeroLineWidth.

Section Refresh.

Context {F : Type} {ops : NumOps F}.

Lemma length_fft (xs : list F) : length (fft xs) = length xs.
Proof. unfold fft. now rewrite length_map, length_seq. Qed.

Lemma item_text_cases (self : Widget F) (s : Scheme) :
  c1 self = item_text s ->
  error_traces self
  = match s with
    | FrequencyModulation =>
        (setData2 (Array x1_grid)
                  (Array (map (spec_errorFM (params self)) x_grid)),
         setData1 (Array [lit 0]))
    | TwoToneFrequencyModulation =>
        (setData2 (Array x1_grid)
                  (Array (map (spec_errorTTFMS (params self)) x_grid)),
         setData1 (Array [lit 0]))
    | CombinedFMAndTTFMS =>
        (setData2 (Array x1_grid)
           (Array (map (spec_errorFM
                          (with_modFreq1 (fsub (w2 self) (w3 self))
                             (params self)))
                       x_grid)),
         setData2 (Array x1_grid)
                  (Array (map (spec_errorTTFMS (params self)) x_grid)))
    end.
Proof.
  intros Hc. destruct s.
  - now apply error_traces_FM.
  - now apply error_traces_TTFMS.
  - now apply error_traces_combined.
Qed.

(** On each item of the combo box, every [setData(x, y)] of [update] gets
    as many abscissae as ordinates, 1000 of each, and the spectrum and the
    field get 1000 ordinates. *)
Theorem update_shapes (self : Widget F) (s : Scheme) :
  c1 self = item_text s ->
  exists r : Widget F,
    update self = Returns r
    /\ aligned 1000 (curve1 r)
    /\ aligned 1000 (curve2 r)
    /\ (s = CombinedFMAndTTFMS -> aligned 1000 (curve2b r))
    /\ bare 1000 (curve3 r)
    /\ bare 1000 (curve4 r).
Proof.
  intros Hc. exists (updated self). split; [apply update_Returns |].
  assert (Hx1 : length (x1_grid (F := F)) = 1000) by apply length_linspace.
  assert (Hx : length (x_grid (F := F)) = 1000) by apply length_linspace.
  assert (Ht : length (t_grid (F := F)) = 1000) by apply length_linspace.
  assert (Hm : forall f : F -> F, length (map f x_grid) = 1000)
    by (intros f; now rewrite length_map).
  change (curve2 (updated self)) with (fst (error_traces self)).
  change (curve2b (updated self)) with (snd (error_traces self)).
  rewrite (item_text_cases self s Hc).
  split; [| split; [| split; [| split]]].
  - eexists. eexists. split; [reflexivity |]. split; [reflexivity |].
    split; [exact Hx1 | apply Hm].
  - destruct s; eexists; eexists;
      (split; [reflexivity |]); (split; [reflexivity |]);
      (split; [exact Hx1 | apply Hm]).
  - intros ->. eexists. eexists. split; [reflexivity |].
    split; [reflexivity |]. split; [exact Hx1 | apply Hm].
  - exists (map cabs (fft (map (spec_E (params self)) t_grid))).
    split; [reflexivity |]. split; [reflexivity |].
    now rewrite length_map, length_fft, length_map.
  - exists (map (spec_E (params self)) t_grid).
    split; [reflexivity |]. split; [reflexivity |].
    now rewrite length_map.
Qed.

Lemma error_traces_same_controls (a b : Widget F) :
  same_controls a b ->
  (exists s, c1 a = item_text s) ->
  error_traces a = error_traces b.
Proof.
  intros (H1 & H2 & H3 & H4 & H5 & H6 & Hc) [s Hs].
  assert (Hp : params a = params b).
  { unfold params. now rewrite H1, H2, H3, H4, H5, H6. }
  rewrite (item_text_cases a s Hs).
  rewrite Hc in Hs. rewrite (item_text_cases b s Hs).
  now rewrite Hp, H2, H3.
Qed.

(** [update] keeps no memory: on an item of the combo box, two widgets
    with the same slider values and the same text are left with the same
    five curves, whatever their curves held before. *)
Theorem update_forgets_curves (a b : Widget F) (s : Scheme) :
  same_controls a b -> c1 a = item_text s ->
  exists r : Widget F, update a = Returns r /\ update b = Returns r.
Proof.
  intros Hab Hs. exists (updated a).
  split; [apply update_Returns |].
  rewrite update_Returns. f_equal.
  pose proof (error_traces_same_controls Hab (ex_intro _ s Hs)) as He.
  destruct Hab as (H1 & H2 & H3 & H4 & H5 & H6 & Hc).
  assert (Hp : params b = params a).
  { unfold params. now rewrite H1, H2, H3, H4, H5, H6. }
  unfold updated. now rewrite Hp, He, H1, H2, H3, H4, H5, H6, Hc.
Qed.

Lemma error_traces_other_text (self : Widget F) :
  (forall s, c1 self <> item_text s) ->
  error_traces self = (curve2 self, curve2b self).
Proof.
  intros Hne. unfold error_traces.
  destruct (String.eqb (c1 self) "Frequency Modulation") eqn:Hfm.
  { apply String.eqb_eq in Hfm. now destruct (Hne FrequencyModulation). }
  destruct (String.eqb (c1 self) "Two Tone Frequency Modulation") eqn:Htt.
  { apply String.eqb_eq in Htt.
    now destruct (Hne TwoToneFrequencyModulation). }
  destruct (String.eqb (c1 self) "FM and TTFMS") eqn:Hc.
  { apply String.eqb_eq in Hc. now destruct (Hne CombinedFMAndTTFMS). }
  reflexivity.
Qed.

(** The [if / elif / elif] has no [else]: on a text that is none of the
    three items [update] leaves both error curves as they were, while it
    still sets the absorption curve, the spectrum and the field. *)
Theorem update_other_text_keeps_error_curves (self : Widget F) :
  (forall s, c1 self <> item_text s) ->
  exists r : Widget F,
    update self = Returns r
    /\ curve2 r = curve2 self
    /\ curve2b r = curve2b self
    /\ curve1 r = setData2 (Array x1_grid)
                           (Array (map (spec_T (params self)) x_grid))
    /\ curve4 r = setData1 (Array (map (spec_E (params self)) t_grid)).
Proof.
  intros Hne. exists (updated self). split; [apply update_Returns |].
  change (curve2 (updated self)) with (fst (error_traces self)).
  change (curve2b (updated self)) with (snd (error_traces self)).
  rewrite (error_traces_other_text self Hne).
  repeat split.
Qed.

Lemma text_cases (text : string) :
  (exists s, text = item_text s) \/ (forall s, text <> item_text s).
Proof.
  destruct (String.eqb text "Frequency Modulation") eqn:Hfm.
  { apply String.eqb_eq in Hfm. left. now exists FrequencyModulation. }
  destruct (String.eqb text "Two Tone Frequency Modulation") eqn:Htt.
  { apply String.eqb_eq in Htt. left.
    now exists TwoToneFrequencyModulation. }
  destruct (String.eqb text "FM and TTFMS") eqn:Hc.
  { apply String.eqb_eq in Hc. left. now exists CombinedFMAndTTFMS. }
  right. intros [] Heq; rewrite Heq in *; discriminate.
Qed.

Lemma updated_idempotent (self : Widget F) :
  updated (updated self) = updated self.
Proof.
  assert (He : error_traces (updated self) = error_traces self).
  { destruct (text_cases (c1 self)) as [Hs | Hne].
    - apply error_traces_same_controls; [| exact Hs].
      repeat split.
    - rewrite (error_traces_other_text (updated self) Hne).
      change (curve2 (updated self)) with (fst (error_traces self)).
      change (curve2b (updated self)) with (snd (error_traces self)).
      now rewrite (error_traces_other_text self Hne). }
  unfold updated at 1. rewrite He. reflexivity.
Qed.

(** Running [update] again changes nothing: a widget that a run of
    [update] has returned is returned as it is by a second run. *)
Theorem update_idempotent (self r : Widget F) :
  update self = Returns r -> update r = Returns r.
Proof.
  rewrite update_Returns. intros H. injection H as <-.
  rewrite update_Returns. f_equal. apply updated_idempotent.
Qed.

End Refresh.

Section Field.

Local Open Scope R_scope.

Lemma spec_E_finite (p : SimulationParameters xreal)
      (lf m1 m2 f1 f2 tt : R) :
  laserFreq p = Fin lf -> modIndex1 p = Fin m1 -> modIndex2 p = Fin m2 ->
  modFreq1 p = Fin f1 -> modFreq2 p = Fin f2 ->
  spec_E p (Fin tt) = Fin (E_real lf m1 m2 f1 f2 tt).
Proof.
  intros Hf Hm1 Hm2 Hf1 Hf2. unfold spec_E, E_real.
  rewrite Hf, Hm1, Hm2, Hf1, Hf2. simpl.
  rewrite !xdiv_pos by lra. reflexivity.
Qed.

Lemma E_real_bounds (lf m1 m2 f1 f2 tt : R) :
  -1 <= E_real lf m1 m2 f1 f2 tt <= 1.
Proof.
  unfold E_real.
  pose proof (COS_bound (lf * tt * PI / 180)) as Ha.
  pose proof (COS_bound (m1 * sin (f1 * tt * PI / 180))) as Hb.
  pose proof (COS_bound (m2 * sin (f2 * tt * PI / 180))) as Hc.
  set (a := cos (lf * tt * PI / 180)) in *.
  set (b := cos (m1 * sin (f1 * tt * PI / 180))) in *.
  set (c := cos (m2 * sin (f2 * tt * PI / 180))) in *.
  assert (Hab : -1 <= a * b <= 1) by nra.
  nra.
Qed.

Lemma E_real_start (lf m1 m2 f1 f2 : R) : E_real lf m1 m2 f1 f2 0 = 1.
Proof.
  unfold E_real.
  replace (lf * 0 * PI / 180) with 0 by (unfold Rdiv; ring).
  replace (f1 * 0 * PI / 180) with 0 by (unfold Rdiv; ring).
  replace (f2 * 0 * PI / 180) with 0 by (unfold Rdiv; ring).
  rewrite sin_0, !Rmult_0_r, cos_0. ring.
Qed.

Lemma E_real_carrier (lf f1 f2 tt : R) :
  E_real lf 0 0 f1 f2 tt = cos (lf * tt * PI / 180).
Proof.
  unfold E_real. rewrite !Rmult_0_l, cos_0. ring.
Qed.

Lemma time_grid_start :
  exists ts : list R, linspace_real 0 1000 1000 = 0 :: ts.
Proof.
  unfold linspace_real.
  change (seq 0 1000) with (0%nat :: 1%nat :: seq 2 998).
  cbn [map set_last]. eexists. f_equal. simpl. lra.
Qed.

(** With finite slider values, the field [update] plots has 1000 finite
    samples, each between −1 and 1, and its first sample, at [t = 0],
    is 1. *)
Theorem field_bounded_starts_at_one (self : Widget xreal)
        (lf m1 m2 f1 f2 : R) :
  w4 self = Fin lf -> w5 self = Fin m1 -> w6 self = Fin m2 ->
  w2 self = Fin f1 -> w3 self = Fin f2 ->
  exists (r : Widget xreal) (es : list R),
    update self = Returns r
    /\ curve4 r = setData1 (Array (map Fin es))
    /\ length es = 1000%nat
    /\ Forall (fun v => -1 <= v <= 1) es
    /\ nth 0 es 0 = 1.
Proof.
  intros Hf Hm1 Hm2 Hf1 Hf2.
  exists (updated self),
         (map (E_real lf m1 m2 f1 f2) (linspace_real 0 1000 1000)).
  split; [apply update_Returns |]. split; [| split; [| split]].
  - change (curve4 (updated self))
      with (setData1 (Array (map (spec_E (params self)) t_grid))).
    rewrite t_grid_reals, !map_map. do 2 f_equal.
    apply map_ext. intros tt. now apply spec_E_finite.
  - now rewrite length_map, length_linspace_real.
  - apply Forall_forall. intros v Hv.
    apply in_map_iff in Hv. destruct Hv as (tt & <- & _).
    apply E_real_bounds.
  - destruct time_grid_start as [ts ->]. simpl. apply E_real_start.
Qed.

(** With both modulation indices at zero the field is the carrier alone,
    [cos(laserFreq·t·π/180)] at each sample of the time grid. *)
Theorem field_without_modulation (self : Widget xreal) (lf f1 f2 : R) :
  w4 self = Fin lf -> w5 self = Fin 0 -> w6 self = Fin 0 ->
  w2 self = Fin f1 -> w3 self = Fin f2 ->
  exists r : Widget xreal,
    update self = Returns r
    /\ curve4 r
       = setData1 (Array (map (fun tt => Fin (cos (lf * tt * PI / 180)))
                              (linspace_real 0 1000 1000))).
Proof.
  intros Hf Hm1 Hm2 Hf1 Hf2. exists (updated self).
  split; [apply update_Returns |].
  change (curve4 (updated self))
    with (setData1 (Array (map (spec_E (params self)) t_grid))).
  rewrite t_grid_reals, !map_map. do 2 f_equal.
  apply map_ext. intros tt.
  rewrite (@spec_E_finite (params self) lf 0 0 f1 f2 tt Hf Hm1 Hm2 Hf1 Hf2).
  now rewrite E_real_carrier.
Qed.

Lemma errorFM_real_zero_shift (lw lf m w s : R) :
  s = 0 -> errorFM_real lw lf m s w = 0.
Proof.
  intros ->. unfold errorFM_real.
  replace (w - 0) with w by ring. replace (w + 0) with w by ring. ring.
Qed.

(** On "FM and TTFMS" with the two modulation frequencies equal, the
    single-tone shift [fmod1 - fmod2] is zero and the first error curve is
    flat: 1000 samples, all zero. *)
Theorem combined_equal_frequencies_flat (self : Widget xreal)
        (lw lf m f : R) :
  c1 self = item_text CombinedFMAndTTFMS ->
  w1 self = Fin lw -> w4 self = Fin lf -> w5 self = Fin m ->
  w2 self = Fin f -> w3 self = Fin f -> lw <> 0 ->
  exists r : Widget xreal,
    update self = Returns r
    /\ yData (curve2 r) = Array (repeat (Fin 0) 1000).
Proof.
  intros Hc Hg Hf Hm H2 H3 Hlw. exists (updated self).
  split; [apply update_Returns |].
  change (curve2 (updated self)) with (fst (error_traces self)).
  rewrite (error_traces_combined self Hc). cbn [fst yData setData2].
  rewrite x_grid_reals, map_map. f_equal.
  rewrite <- (length_linspace_real (-10000) 10000 1000) at 2.
  rewrite <- map_const_repeat. apply map_ext. intros w.
  rewrite H2, H3.
  assert (Hs : modFreq1 (with_modFreq1 (fsub (Fin f) (Fin f)) (params self))
               = Fin (f + - f)) by reflexivity.
  rewrite (@spec_errorFM_finite
             (with_modFreq1 (fsub (Fin f) (Fin f)) (params self))
             lw lf m (f + - f) w Hg Hf Hm Hs Hlw).
  f_equal. apply errorFM_real_zero_shift. ring.
Qed.

End Field.

(** * The sliders *)

Section SliderFacts.

Local Open Scope R_scope.

Lemma xdiv_nonzero (u v : R) : v <> 0 -> xdiv (Fin u) (Fin v) = Fin (u / v).
Proof.
  intros Hv. unfold xdiv, sign_of.
  destruct (total_order_T v 0) as [[Hlt | Heq] | Hgt];
    [reflexivity | contradiction | reflexivity].
Qed.

Lemma scaled_finite (lo hi : R) (smin smax value : Z) :
  (smax - smin <> 0)%Z ->
  Slider.scaled (Fin lo) (Fin hi) smin smax value
  = Returns (Fin (scaled_real lo hi smin smax value)).
Proof.
  intros Hd. unfold Slider.scaled.
  destruct (Z.eqb_spec (smax - smin) 0) as [H0 | _]; [contradiction |].
  assert (Hne : IZR (smax - smin) <> 0).
  { intros H. apply eq_IZR in H. contradiction. }
  change (fdiv (lit value) (lit (smax - smin)))
    with (xdiv (Fin (IZR value)) (Fin (IZR (smax - smin)))).
  rewrite (xdiv_nonzero _ Hne). reflexivity.
Qed.

Lemma setLabelValue_finite (self : Slider.t xreal) (lo hi : R) (value : Z) :
  Slider.minimum self = Fin lo -> Slider.maximum self = Fin hi ->
  (Slider.slider_maximum self - Slider.slider_minimum self <> 0)%Z ->
  Slider.setLabelValue value self
  = Returns (Slider.mk (Fin lo) (Fin hi)
               (Slider.slider_minimum self) (Slider.slider_maximum self)
               (Fin (scaled_real lo hi (Slider.slider_minimum self)
                                 (Slider.slider_maximum self) value))).
Proof.
  intros Hlo Hhi Hd. unfold Slider.setLabelValue, Slider.assign.
  rewrite Hlo, Hhi, (@scaled_finite lo hi _ _ value Hd). reflexivity.
Qed.

Lemma scaled_real_within (lo hi : R) (smax value : Z) :
  (0 < smax)%Z -> (0 <= value <= smax)%Z -> lo <= hi ->
  lo <= scaled_real lo hi 0 smax value <= hi.
Proof.
  intros Hs [Hv0 Hv1] Hle. unfold scaled_real. rewrite Z.sub_0_r.
  apply IZR_lt in Hs. apply IZR_le in Hv0. apply IZR_le in Hv1.
  set (q := IZR value / IZR smax).
  assert (Hq : 0 <= q <= 1).
  { unfold q. split.
    - apply Rmult_le_pos; [exact Hv0 |].
      left. now apply Rinv_0_lt_compat.
    - apply Rmult_le_reg_r with (IZR smax); [exact Hs |].
      unfold Rdiv. rewrite Rmult_assoc, Rinv_l by lra. lra. }
  nra.
Qed.

(** With a Qt slider of range [0 .. smax], [setLabelValue] called with a
    value of that range sets [x] to the number [scaled_real] of the formula
    and changes nothing else; rounding left out, that number lies between
    [minimum] and [maximum].  The bound is one on the formula over the
    reals: the script rounds each of its four operations to a double, and
    at the top of the slider the rounded sum can exceed [maximum] in its
    last bit. *)
Theorem setLabelValue_within_bounds (self : Slider.t xreal) (lo hi : R)
        (value : Z) :
  Slider.minimum self = Fin lo -> Slider.maximum self = Fin hi ->
  Slider.slider_minimum self = 0%Z ->
  (0 < Slider.slider_maximum self)%Z ->
  (0 <= value <= Slider.slider_maximum self)%Z ->
  lo <= hi ->
  Slider.setLabelValue value self
  = Returns (Slider.mk (Slider.minimum self) (Slider.maximum self)
               (Slider.slider_minimum self) (Slider.slider_maximum self)
               (Fin (scaled_real lo hi 0 (Slider.slider_maximum self) value)))
  /\ lo <= scaled_real lo hi 0 (Slider.slider_maximum self) value <= hi.
Proof.
  intros Hlo Hhi Hmin Hmax Hv Hle.
  assert (Hd : (Slider.slider_maximum self - Slider.slider_minimum self
                <> 0)%Z) by lia.
  split; [| now apply scaled_real_within].
  rewrite (@setLabelValue_finite self lo hi value Hlo Hhi Hd).
  now rewrite Hmin, Hlo, Hhi.
Qed.

(** The ends of the Qt slider give the ends of the interval, and a larger
    value never gives a smaller [x]. *)
Theorem setLabelValue_ends_and_order (lo hi : R) (smax v v' : Z) :
  (0 < smax)%Z -> lo <= hi -> (v <= v')%Z ->
  scaled_real lo hi 0 smax 0 = lo
  /\ scaled_real lo hi 0 smax smax = hi
  /\ scaled_real lo hi 0 smax v <= scaled_real lo hi 0 smax v'
  /\ forall value : Z,
       Slider.setLabelValue value (Slider.mk (Fin lo) (Fin hi) 0 smax NaN)
       = Returns (Slider.mk (Fin lo) (Fin hi) 0 smax
                            (Fin (scaled_real lo hi 0 smax value))).
Proof.
  intros Hs Hle Hv.
  assert (Hpos : 0 < IZR smax) by now apply IZR_lt.
  unfold scaled_real. rewrite Z.sub_0_r.
  split; [| split; [| split]].
  - unfold Rdiv. ring.
  - field. lra.
  - apply IZR_le in Hv.
    assert (Hq : IZR v / IZR smax <= IZR v' / IZR smax).
    { unfold Rdiv. apply Rmult_le_compat_r; [| exact Hv].
      left. now apply Rinv_0_lt_compat. }
    nra.
  - intros value.
    rewrite (@setLabelValue_finite (Slider.mk (Fin lo) (Fin hi) 0 smax NaN)
               lo hi value eq_refl eq_refl);
      [| cbn; lia].
    cbn. unfold scaled_real. now rewrite Z.sub_0_r.
Qed.

(** The formula divides the value itself, not its distance from the
    minimum of the Qt slider: on a Qt slider whose range starts at
    [smin], the lowest position gives [minimum] only when [smin] is 0. *)
Theorem setLabelValue_ignores_slider_minimum (lo hi : R) (smin smax : Z) :
  (smin < smax)%Z -> lo < hi ->
  Slider.setLabelValue smin (Slider.mk (Fin lo) (Fin hi) smin smax NaN)
  = Returns (Slider.mk (Fin lo) (Fin hi) smin smax
                       (Fin (scaled_real lo hi smin smax smin)))
  /\ (scaled_real lo hi smin smax smin = lo <-> smin = 0%Z).
Proof.
  intros Hs Hlt. split.
  - apply (@setLabelValue_finite (Slider.mk (Fin lo) (Fin hi) smin smax NaN)
             lo hi smin eq_refl eq_refl).
    cbn. lia.
  - unfold scaled_real.
    assert (Hd : 0 < IZR (smax - smin)) by (apply IZR_lt; lia).
    split.
    + intros H.
      assert (Hz : IZR smin / IZR (smax - smin) = 0) by nra.
      assert (H0 : IZR smin = 0).
      { apply Rmult_eq_compat_r with (r := IZR (smax - smin)) in Hz.
        unfold Rdiv in Hz. rewrite Rmult_assoc, Rinv_l in Hz by lra. lra. }
      now apply eq_IZR in H0.
    + intros ->. unfold Rdiv. ring.
Qed.

End SliderFacts.

Section SliderBuild.

Context {F : Type} {ops : NumOps F}.

(** Building a slider raises [ZeroDivisionError] when the range of the Qt
    slider is empty; otherwise it returns, and the [x] it leaves is computed
    from the value of the spin box: the value of the Qt slider has no
    part in it. *)
Theorem slider_init_uses_box_value (lo hi : F) (smin smax : Z)
        (slider_value box_value : Z) :
  Slider.init lo hi smin smax slider_value box_value
  = if Z.eqb smax smin then Raises ZeroDivisionError
    else Returns
           (Slider.mk lo hi smin smax
              (fadd lo (fmul (fdiv (lit box_value) (lit (smax - smin)))
                             (fsub hi lo)))).
Proof.
  unfold Slider.init, Slider.setLabelValue, Slider.assign, Slider.scaled.
  destruct (Z.eqb_spec smax smin) as [-> | Hne].
  - now rewrite Z.sub_diag.
  - assert (He : (smax - smin =? 0)%Z = false) by (apply Z.eqb_neq; lia).
    rewrite He. cbn. rewrite He. reflexivity.
Qed.

End SliderBuild.

(** * The window *)

Section Session.

Local Open Scope R_scope.

Variables (smax slider_value box_value : Z).
Hypothesis smax_pos : (0 < smax)%Z.

Lemma bounds_ordered (k : Gui.control) :
  fst (Gui.bounds k) <= snd (Gui.bounds k).
Proof. destruct k; cbn; lra. Qed.

Lemma get_put_same (k : Gui.control) (v : xreal) (self : Widget xreal) :
  Gui.get k (Gui.put k v self) = v.
Proof. now destruct k. Qed.

Lemma get_put_other (k k' : Gui.control) (v : xreal) (self : Widget xreal) :
  k <> k' -> Gui.get k' (Gui.put k v self) = Gui.get k' self.
Proof. intros Hne. destruct k, k'; try reflexivity; contradiction. Qed.

Lemma control_eq_dec (k k' : Gui.control) : {k = k'} + {k <> k'}.
Proof. decide equality. Qed.

Lemma within_bounds_put (k : Gui.control) (r : R) (self : Widget xreal) :
  fst (Gui.bounds k) <= r <= snd (Gui.bounds k) ->
  sliders_within_bounds self ->
  sliders_within_bounds (Gui.put k (Fin r) self).
Proof.
  intros Hr Hall k'. destruct (control_eq_dec k k') as [<- | Hne].
  - rewrite get_put_same. now exists r.
  - rewrite (get_put_other (Fin r) self Hne). apply Hall.
Qed.

Lemma within_bounds_updated (self : Widget xreal) :
  sliders_within_bounds self -> sliders_within_bounds (updated self).
Proof.
  intros Hall k. specialize (Hall k). now destruct k.
Qed.

Lemma in_sync_updated (self : Widget xreal) : in_sync (updated self).
Proof.
  unfold in_sync. rewrite update_Returns. f_equal. apply updated_idempotent.
Qed.

(** What a [valueChanged] signal leaves. *)
Lemma valueChanged_Returns (k : Gui.control) (value : Z)
      (self : Widget xreal) :
  Gui.valueChanged 0 smax k value self
  = Returns (updated
               (Gui.put k (Fin (scaled_real (fst (Gui.bounds k))
                                            (snd (Gui.bounds k))
                                            0 smax value))
                        self)).
Proof.
  unfold Gui.valueChanged.
  rewrite (@setLabelValue_finite (Gui.slider 0 smax k self)
             (fst (Gui.bounds k)) (snd (Gui.bounds k)) value
             eq_refl eq_refl) by (cbn; lia).
  cbv beta iota delta [bind]. cbn [Slider.x Gui.slider
    Slider.slider_minimum Slider.slider_maximum].
  apply update_Returns.
Qed.

Lemma built_Returns (k : Gui.control) :
  Gui.built 0 smax slider_value box_value k
  = Returns (Slider.mk (Fin (fst (Gui.bounds k))) (Fin (snd (Gui.bounds k)))
               0 smax
               (Fin (scaled_real (fst (Gui.bounds k)) (snd (Gui.bounds k))
                                 0 smax box_value))).
Proof.
  unfold Gui.built, Slider.init, Slider.assign.
  rewrite (@scaled_finite _ _ 0 smax slider_value) by lia.
  cbv beta iota delta [bind].
  apply (@setLabelValue_finite
           (Slider.mk (Fin (fst (Gui.bounds k))) (Fin (snd (Gui.bounds k)))
                      0 smax _)
           (fst (Gui.bounds k)) (snd (Gui.bounds k)) box_value
           eq_refl eq_refl).
  cbn. lia.
Qed.

Lemma consistent_updated (self : Widget xreal) :
  sliders_within_bounds self -> (exists s, c1 self = item_text s) ->
  consistent (updated self).
Proof.
  intros Hall Hs. split; [now apply within_bounds_updated |].
  split; [exact Hs | apply in_sync_updated].
Qed.

Lemma handle_keeps (ev : Gui.event) (self : Widget xreal) :
  Gui.in_range smax ev -> consistent self ->
  exists s : Widget xreal,
    Gui.handle 0 smax ev self = Returns s /\ consistent s.
Proof.
  intros Hev (Hall & Hs & _).
  destruct ev as [k value | k value | sch]; cbn [Gui.handle Gui.in_range] in *.
  - eexists. split; [apply valueChanged_Returns |].
    apply consistent_updated.
    + apply within_bounds_put; [| exact Hall].
      apply scaled_real_within; [exact smax_pos | exact Hev |].
      apply bounds_ordered.
    + destruct Hs as [sch Hs]. exists sch. rewrite <- Hs. now destruct k.
  - eexists. split; [apply valueChanged_Returns |].
    apply consistent_updated.
    + apply within_bounds_put; [| exact Hall].
      apply scaled_real_within; [exact smax_pos | exact Hev |].
      apply bounds_ordered.
    + destruct Hs as [sch Hs]. exists sch. rewrite <- Hs. now destruct k.
  - exists (updated (Gui.set_text (item_text sch) self)).
    split; [unfold Gui.activated; apply update_Returns |].
    apply consistent_updated.
    + intros k. specialize (Hall k). now destruct k.
    + now exists sch.
Qed.

Lemma run_keeps (evs : list Gui.event) (self : Widget xreal) :
  Forall (Gui.in_range smax) evs -> consistent self ->
  exists s : Widget xreal,
    Gui.run 0 smax evs self = Returns s /\ consistent s.
Proof.
  intros Hevs. revert self.
  induction Hevs as [| ev evs Hev Hevs IH]; intros self Hc.
  - now exists self.
  - destruct (@handle_keeps ev self Hev Hc) as (s & Hs & Hcs).
    destruct (IH s Hcs) as (s' & Hs' & Hcs').
    exists s'. split; [| exact Hcs'].
    cbn [Gui.run]. rewrite Hs. exact Hs'.
Qed.

Hypothesis box_in_range : (0 <= box_value <= smax)%Z.

Lemma init_consistent :
  exists s : Widget xreal,
    Gui.init 0 smax slider_value box_value = Returns s /\ consistent s.
Proof.
  unfold Gui.init. rewrite !built_Returns.
  cbv beta iota delta [bind]. cbn [Slider.x].
  match goal with
  | |- exists s, update ?w = _ /\ _ => exists (updated w)
  end.
  split; [apply update_Returns |].
  apply consistent_updated.
  - intros k. eexists.
    split; [destruct k; reflexivity |].
    apply scaled_real_within;
      [exact smax_pos | exact box_in_range | apply bounds_ordered].
  - now exists FrequencyModulation.
Qed.

Lemma session_consistent_aux (evs : list Gui.event) :
  Forall (Gui.in_range smax) evs ->
  exists s : Widget xreal,
    Gui.session 0 smax slider_value box_value evs = Returns s
    /\ consistent s.
Proof.
  intros Hevs. destruct init_consistent as (s0 & H0 & Hc0).
  destruct (@run_keeps evs s0 Hevs Hc0) as (s & Hs & Hc).
  exists s. split; [| exact Hc].
  unfold Gui.session. rewrite H0. exact Hs.
Qed.

(** Once the window is built, and after any events of a Qt slider and spin
    box of range [0 .. smax] and of the combo box, no handler has raised,
    every slider value is finite and within the bounds of its slider, the
    text is one of the three items, and the curves shown are those of the
    controls: a further [update] would change nothing. *)
Theorem session_consistent (evs : list Gui.event) :
  Forall (Gui.in_range smax) evs ->
  exists s : Widget xreal,
    Gui.session 0 smax slider_value box_value evs = Returns s
    /\ sliders_within_bounds s
    /\ (exists sch : Scheme, c1 s = item_text sch)
    /\ update s = Returns s.
Proof.
  intros Hevs. exact (session_consistent_aux Hevs).
Qed.

(** In the window the line width is never zero: after any such events it
    is at least 0.01, and every sample of the absorption curve shown is a
    finite number from 0.5 up to 1, both ends included. *)
Theorem session_absorption_finite (evs : list Gui.event) :
  Forall (Gui.in_range smax) evs ->
  exists (s : Widget xreal) (lw : R) (rs : list R),
    Gui.session 0 smax slider_value box_value evs = Returns s
    /\ w1 s = Fin lw /\ 0.01 <= lw
    /\ yData (curve1 s) = Array (map Fin rs)
    /\ length rs = 1000%nat
    /\ Forall (fun r => 0.5 <= r <= 1) rs.
Proof.
  intros Hevs.
  destruct (session_consistent_aux Hevs) as (s & Hs & Hall & _ & Hsync).
  destruct (Hall Gui.Gamma) as (lw & Hlw & Hlo & _).
  destruct (Hall Gui.LaserFreq) as (lf & Hlf & _).
  cbn in Hlw, Hlf, Hlo.
  exists s, lw, (map (T_real lw lf) (linspace_real (-10000) 10000 1000)).
  split; [exact Hs |]. split; [exact Hlw |]. split; [exact Hlo |].
  split; [| split].
  - unfold in_sync in Hsync. rewrite update_Returns in Hsync.
    injection Hsync as Hsync. rewrite <- Hsync at 1.
    change (yData (curve1 (updated s)))
      with (Array (map (spec_T (params s)) x_grid)).
    rewrite x_grid_reals, !map_map. f_equal. apply map_ext. intros w.
    apply (@spec_T_finite (params s) lw lf w Hlw Hlf). lra.
  - now rewrite length_map, length_linspace_real.
  - apply Forall_forall. intros r Hr.
    apply in_map_iff in Hr. destruct Hr as (w & <- & _).
    assert (Hne : lw <> 0) by lra.
    pose proof (@T_real_bounds lw lf w Hne) as Hb. lra.
Qed.

End Session.

(** * The spectrum *)

Section Spectrum.

Local Open Scope R_scope.

Lemma abs_fft_finite (es : list R) :
  abs_fft (Array (map Fin es))
  = Array (map Fin (map (dft_magnitude es) (seq 0 (length es)))).
Proof.
  unfold abs_fft, fft. simpl samples. rewrite length_map, !map_map.
  f_equal. apply map_ext_in. intros k Hk. apply in_seq in Hk.
  rewrite fft_entry_finite by lia. apply cabs_finite.
Qed.

Lemma Cconj_plus (a b : R * R) :
  Cconj (Cplus a b) = Cplus (Cconj a) (Cconj b).
Proof. unfold Cconj, Cplus. simpl. f_equal. ring. Qed.

Lemma Cmod_conj (a : R * R) : Cmod (Cconj a) = Cmod a.
Proof. unfold Cmod, Cconj. simpl. f_equal. ring. Qed.

Lemma fold_Cplus_conj (l : list (R * R)) :
  fold_right Cplus (0, 0) (map Cconj l)
  = Cconj (fold_right Cplus (0, 0) l).
Proof.
  induction l as [| c l IH]; simpl.
  - unfold Cconj. simpl. f_equal. ring.
  - now rewrite IH, Cconj_plus.
Qed.

Lemma dft_term_mirror (es : list R) (k j : nat) :
  (0 < length es)%nat -> (k <= length es)%nat ->
  dft_term es (length es - k) j = Cconj (dft_term es k j).
Proof.
  intros Hn Hk. unfold dft_term.
  set (n := length es) in *.
  assert (Hnz : INR n <> 0) by (apply not_0_INR; lia).
  set (theta := - (2 * PI * INR j * INR k / INR n)).
  assert (Hcos : cos (- (2 * PI * INR j * INR (n - k) / INR n)) = cos theta).
  { rewrite <- (cos_period _ j), <- (cos_neg theta). f_equal.
    rewrite minus_INR by exact Hk. unfold theta. field. exact Hnz. }
  assert (Hsin : sin (- (2 * PI * INR j * INR (n - k) / INR n))
                 = - sin theta).
  { rewrite <- (sin_period _ j), <- (sin_neg theta). f_equal.
    rewrite minus_INR by exact Hk. unfold theta. field. exact Hnz. }
  unfold Cmult, Cexp_i, Cconj. cbn [fst snd]. rewrite Hcos, Hsin.
  f_equal; ring.
Qed.

Lemma dft_magnitude_mirror (es : list R) (k : nat) :
  (0 < k < length es)%nat ->
  dft_magnitude es (length es - k) = dft_magnitude es k.
Proof.
  intros Hk. unfold dft_magnitude. rewrite <- (Cmod_conj (dft_sum es k)).
  f_equal. unfold dft_sum. rewrite <- fold_Cplus_conj, map_map.
  f_equal. apply map_ext. intros j.
  apply (@dft_term_mirror es k j); lia.
Qed.

Lemma nth_map_seq (f : nat -> R) (n k : nat) :
  (k < n)%nat -> nth k (map f (seq 0 n)) 0 = f k.
Proof.
  intros Hk. rewrite (nth_indep _ 0 (f 0%nat)) by now rewrite length_map, length_seq.
  rewrite map_nth, seq_nth by exact Hk. reflexivity.
Qed.

(** With finite slider values, the spectrum [update] plots has 1000 finite
    samples, none negative, and it is its own mirror image: sample [k]
    equals sample [1000 − k]. *)
Theorem spectrum_mirrored (self : Widget xreal) (lf m1 m2 f1 f2 : R) :
  w4 self = Fin lf -> w5 self = Fin m1 -> w6 self = Fin m2 ->
  w2 self = Fin f1 -> w3 self = Fin f2 ->
  exists (r : Widget xreal) (ys : list R),
    update self = Returns r
    /\ curve3 r = setData1 (Array (map Fin ys))
    /\ length ys = 1000%nat
    /\ Forall (fun y => 0 <= y) ys
    /\ forall k : nat,
         (0 < k < 1000)%nat -> nth (1000 - k) ys 0 = nth k ys 0.
Proof.
  intros Hf Hm1 Hm2 Hf1 Hf2.
  set (es := map (E_real lf m1 m2 f1 f2) (linspace_real 0 1000 1000)).
  assert (Hlen : length es = 1000%nat)
    by (unfold es; now rewrite length_map, length_linspace_real).
  exists (updated self), (map (dft_magnitude es) (seq 0 (length es))).
  split; [apply update_Returns |]. split; [| split; [| split]].
  - change (curve3 (updated self))
      with (setData1 (abs_fft (Array (map (spec_E (params self)) t_grid)))).
    rewrite <- abs_fft_finite. do 3 f_equal.
    rewrite t_grid_reals. unfold es. rewrite !map_map.
    apply map_ext. intros tt. now apply spec_E_finite.
  - now rewrite length_map, length_seq.
  - apply Forall_forall. intros y Hy.
    apply in_map_iff in Hy. destruct Hy as (k & <- & _).
    unfold dft_magnitude, Cmod. apply sqrt_pos.
  - intros k Hk. rewrite Hlen, !nth_map_seq by lia.
    rewrite <- Hlen. apply dft_magnitude_mirror. lia.
Qed.

End Spectrum.

(** * The further properties at the scenario *)

Section FurtherScenario.

Local Open Scope R_scope.

Lemma absorption_within_half_and_one_scenario :
  gamma (frame (scenario FrequencyModulation)) = Fin 10
  /\ flaser (frame (scenario FrequencyModulation)) = Fin 70
  /\ 10 <> 0
  /\ exists rs : list R,
       absorption (frame (scenario FrequencyModulation))
                  (Array (map Fin [-70; 0]))
       = Returns (Array (map Fin rs))
       /\ length rs = length [-70; 0]
       /\ Forall (fun r => 0.5 <= r <= 1) rs.
Proof.
  assert (H : 10 <> 0) by lra.
  split; [reflexivity |]. split; [reflexivity |]. split; [exact H |].
  exact (@absorption_within_half_and_one
           (frame (scenario FrequencyModulation)) 10 70 [-70; 0]
           eq_refl eq_refl H).
Defined.

Lemma absorption_symmetric_scenario :
  gamma (frame (scenario FrequencyModulation)) = Fin 10
  /\ flaser (frame (scenario FrequencyModulation)) = Fin 70
  /\ 10 <> 0
  /\ absorption (frame (scenario FrequencyModulation))
                (Array (map Fin (map (mirror 70) [-60; 0])))
     = absorption (frame (scenario FrequencyModulation))
                  (Array (map Fin [-60; 0]))
  /\ absorption (frame (scenario FrequencyModulation)) (Array [Fin (- 70)])
     = Returns (Array [Fin 0.5]).
Proof.
  assert (H : 10 <> 0) by lra.
  split; [reflexivity |]. split; [reflexivity |]. split; [exact H |].
  exact (@absorption_symmetric_about_centre
           (frame (scenario FrequencyModulation)) 10 70 [-60; 0]
           eq_refl eq_refl H).
Defined.

Lemma absorption_width_sign_scenario :
  gamma (frame (fresh (- 10) 5 3 70 1 1 "")) = Fin (- 10)
  /\ gamma (frame untitled) = Fin 10
  /\ flaser (frame (fresh (- 10) 5 3 70 1 1 "")) = flaser (frame untitled)
  /\ absorption (frame (fresh (- 10) 5 3 70 1 1 "")) (Array [Fin 0; NaN])
     = absorption (frame untitled) (Array [Fin 0; NaN]).
Proof.
  split; [reflexivity |]. split; [reflexivity |]. split; [reflexivity |].
  exact (@absorption_ignores_width_sign
           (frame (fresh (- 10) 5 3 70 1 1 "")) (frame untitled) 10
           [Fin 0; NaN] eq_refl eq_refl eq_refl).
Defined.


Lemma absorption_zero_width_scenario :
  gamma (frame zero_width) = Fin 0
  /\ flaser (frame zero_width) = Fin 70
  /\ absorption (frame zero_width) (Array (map Fin [-70; 0]))
     = Returns (Array (map (fun w => if Req_dec_T (70 + w) 0 then NaN
                                     else Fin 1) [-70; 0])).
Proof.
  split; [reflexivity |]. split; [reflexivity |].
  exact (@absorption_zero_width (frame zero_width) 70 [-70; 0]
           eq_refl eq_refl).
Defined.

Lemma zero_width_number_raises_scenario :
  gamma (frame zero_width) = Fin 0
  /\ absorption (frame zero_width) (Scalar (Fin 1))
     = Raises ZeroDivisionError
  /\ FMerrorsig (frame zero_width) (Scalar (Fin 1))
     = Raises ZeroDivisionError
  /\ TTFMS (frame zero_width) (Scalar (Fin 1)) = Raises ZeroDivisionError.
Proof.
  split; [reflexivity |].
  exact (@zero_width_number_raises (frame zero_width) (Fin 1) eq_refl).
Defined.

Lemma FMerrorsig_odd_scenario :
  gamma (frame (scenario FrequencyModulation)) = Fin 10
  /\ flaser (frame (scenario FrequencyModulation)) = Fin 70
  /\ M1 (frame (scenario FrequencyModulation)) = Fin 1
  /\ fmfmod (frame (scenario FrequencyModulation)) = Fin 5
  /\ 10 <> 0
  /\ FMerrorsig (frame (scenario FrequencyModulation))
                (Array (map Fin [-60; 0]))
     = Returns (Array (map (fun w => Fin (errorFM_real 10 70 1 5 w))
                           [-60; 0]))
  /\ (forall w : R,
        errorFM_real 10 70 1 5 (mirror 70 w) = - errorFM_real 10 70 1 5 w)
  /\ errorFM_real 10 70 1 5 (- 70) = 0.
Proof.
  assert (H : 10 <> 0) by lra.
  repeat (split; [reflexivity |]). split; [exact H |].
  exact (@FMerrorsig_odd_about_centre
           (frame (scenario FrequencyModulation)) 10 70 1 5 [-60; 0]
           eq_refl eq_refl eq_refl eq_refl H).
Defined.

Lemma TTFMS_even_scenario :
  gamma (frame (scenario TwoToneFrequencyModulation)) = Fin 10
  /\ flaser (frame (scenario TwoToneFrequencyModulation)) = Fin 70
  /\ M1 (frame (scenario TwoToneFrequencyModulation)) = Fin 1
  /\ M2 (frame (scenario TwoToneFrequencyModulation)) = Fin 1
  /\ fmod1 (frame (scenario TwoToneFrequencyModulation)) = Fin 5
  /\ fmod2 (frame (scenario TwoToneFrequencyModulation)) = Fin 3
  /\ 10 <> 0
  /\ TTFMS (frame (scenario TwoToneFrequencyModulation))
           (Array (map Fin [-60; 0]))
     = Returns (Array (map (fun w => Fin (errorTTFMS_real 10 70 1 1 5 3 w))
                           [-60; 0]))
  /\ forall w : R,
       errorTTFMS_real 10 70 1 1 5 3 (mirror 70 w)
       = errorTTFMS_real 10 70 1 1 5 3 w.
Proof.
  assert (H : 10 <> 0) by lra.
  repeat (split; [reflexivity |]). split; [exact H |].
  exact (@TTFMS_even_about_centre
           (frame (scenario TwoToneFrequencyModulation)) 10 70 1 1 5 3
           [-60; 0] eq_refl eq_refl eq_refl eq_refl eq_refl eq_refl H).
Defined.

Lemma zero_index_scenario :
  gamma (frame (fresh 10 5 3 70 0 1 "")) = Fin 10
  /\ flaser (frame (fresh 10 5 3 70 0 1 "")) = Fin 70
  /\ M1 (frame (fresh 10 5 3 70 0 1 "")) = Fin 0
  /\ M2 (frame (fresh 10 5 3 70 0 1 "")) = Fin 1
  /\ fmod1 (frame (fresh 10 5 3 70 0 1 "")) = Fin 5
  /\ fmod2 (frame (fresh 10 5 3 70 0 1 "")) = Fin 3
  /\ fmfmod (frame (fresh 10 5 3 70 0 1 "")) = Fin 5
  /\ 10 <> 0
  /\ FMerrorsig (frame (fresh 10 5 3 70 0 1 "")) (Array (map Fin [-60; 0]))
     = Returns (Array (map (fun _ => Fin 0) [-60; 0]))
  /\ TTFMS (frame (fresh 10 5 3 70 0 1 "")) (Array (map Fin [-60; 0]))
     = Returns (Array (map (fun _ => Fin 0) [-60; 0])).
Proof.
  assert (H : 10 <> 0) by lra.
  repeat (split; [reflexivity |]). split; [exact H |].
  exact (@zero_index_zero_signal
           (frame (fresh 10 5 3 70 0 1 "")) 10 70 1 5 3 5 [-60; 0]
           eq_refl eq_refl eq_refl eq_refl eq_refl eq_refl eq_refl H).
Defined.

Lemma update_shapes_scenario :
  c1 (scenario CombinedFMAndTTFMS) = item_text CombinedFMAndTTFMS
  /\ exists r : Widget xreal,
       update (scenario CombinedFMAndTTFMS) = Returns r
       /\ aligned 1000 (curve1 r)
       /\ aligned 1000 (curve2 r)
       /\ (CombinedFMAndTTFMS = CombinedFMAndTTFMS ->
           aligned 1000 (curve2b r))
       /\ bare 1000 (curve3 r)
       /\ bare 1000 (curve4 r).
Proof.
  split; [reflexivity |].
  exact (@update_shapes xreal xreal_ops (scenario CombinedFMAndTTFMS)
           CombinedFMAndTTFMS eq_refl).
Defined.

Lemma update_idempotent_scenario :
  update (scenario FrequencyModulation)
  = Returns (updated (scenario FrequencyModulation))
  /\ update (updated (scenario FrequencyModulation))
     = Returns (updated (scenario FrequencyModulation)).
Proof.
  assert (H : update (scenario FrequencyModulation)
              = Returns (updated (scenario FrequencyModulation)))
    by apply update_Returns.
  split; [exact H |].
  exact (@update_idempotent xreal xreal_ops (scenario FrequencyModulation)
           (updated (scenario FrequencyModulation)) H).
Defined.

Lemma update_forgets_curves_scenario :
  same_controls drawn (scenario FrequencyModulation)
  /\ c1 drawn = item_text FrequencyModulation
  /\ exists r : Widget xreal,
       update drawn = Returns r
       /\ update (scenario FrequencyModulation) = Returns r.
Proof.
  assert (H : same_controls drawn (scenario FrequencyModulation))
    by (repeat split).
  split; [exact H |]. split; [reflexivity |].
  exact (@update_forgets_curves xreal xreal_ops drawn
           (scenario FrequencyModulation) FrequencyModulation H eq_refl).
Defined.

Lemma update_other_text_scenario :
  (forall s, c1 untitled <> item_text s)
  /\ exists r : Widget xreal,
       update untitled = Returns r
       /\ curve2 r = curve2 untitled
       /\ curve2b r = curve2b untitled
       /\ curve1 r = setData2 (Array x1_grid)
                              (Array (map (spec_T (params untitled)) x_grid))
       /\ curve4 r = setData1 (Array (map (spec_E (params untitled)) t_grid)).
Proof.
  assert (H : forall s, c1 untitled <> item_text s)
    by (intros []; discriminate).
  split; [exact H |].
  exact (@update_other_text_keeps_error_curves xreal xreal_ops untitled H).
Defined.

Lemma field_bounded_scenario :
  w4 (scenario FrequencyModulation) = Fin 70
  /\ w5 (scenario FrequencyModulation) = Fin 1
  /\ w6 (scenario FrequencyModulation) = Fin 1
  /\ w2 (scenario FrequencyModulation) = Fin 5
  /\ w3 (scenario FrequencyModulation) = Fin 3
  /\ exists (r : Widget xreal) (es : list R),
       update (scenario FrequencyModulation) = Returns r
       /\ curve4 r = setData1 (Array (map Fin es))
       /\ length es = 1000%nat
       /\ Forall (fun v => -1 <= v <= 1) es
       /\ nth 0 es 0 = 1.
Proof.
  repeat (split; [reflexivity |]).
  exact (@field_bounded_starts_at_one (scenario FrequencyModulation)
           70 1 1 5 3 eq_refl eq_refl eq_refl eq_refl eq_refl).
Defined.

Lemma field_without_modulation_scenario :
  w4 (fresh 10 5 3 70 0 0 "") = Fin 70
  /\ w5 (fresh 10 5 3 70 0 0 "") = Fin 0
  /\ w6 (fresh 10 5 3 70 0 0 "") = Fin 0
  /\ w2 (fresh 10 5 3 70 0 0 "") = Fin 5
  /\ w3 (fresh 10 5 3 70 0 0 "") = Fin 3
  /\ exists r : Widget xreal,
       update (fresh 10 5 3 70 0 0 "") = Returns r
       /\ curve4 r
          = setData1 (Array (map (fun tt => Fin (cos (70 * tt * PI / 180)))
                                 (linspace_real 0 1000 1000))).
Proof.
  repeat (split; [reflexivity |]).
  exact (@field_without_modulation (fresh 10 5 3 70 0 0 "") 70 5 3
           eq_refl eq_refl eq_refl eq_refl eq_refl).
Defined.

Lemma combined_equal_frequencies_scenario :
  c1 (fresh 10 5 5 70 1 1 (item_text CombinedFMAndTTFMS))
  = item_text CombinedFMAndTTFMS
  /\ w1 (fresh 10 5 5 70 1 1 (item_text CombinedFMAndTTFMS)) = Fin 10
  /\ w4 (fresh 10 5 5 70 1 1 (item_text CombinedFMAndTTFMS)) = Fin 70
  /\ w5 (fresh 10 5 5 70 1 1 (item_text CombinedFMAndTTFMS)) = Fin 1
  /\ w2 (fresh 10 5 5 70 1 1 (item_text CombinedFMAndTTFMS)) = Fin 5
  /\ w3 (fresh 10 5 5 70 1 1 (item_text CombinedFMAndTTFMS)) = Fin 5
  /\ 10 <> 0
  /\ exists r : Widget xreal,
       update (fresh 10 5 5 70 1 1 (item_text CombinedFMAndTTFMS))
       = Returns r
       /\ yData (curve2 r) = Array (repeat (Fin 0) 1000).
Proof.
  assert (H : 10 <> 0) by lra.
  repeat (split; [reflexivity |]). split; [exact H |].
  exact (@combined_equal_frequencies_flat
           (fresh 10 5 5 70 1 1 (item_text CombinedFMAndTTFMS)) 10 70 1 5
           eq_refl eq_refl eq_refl eq_refl eq_refl eq_refl H).
Defined.

Lemma spectrum_mirrored_scenario :
  w4 (scenario FrequencyModulation) = Fin 70
  /\ w5 (scenario FrequencyModulation) = Fin 1
  /\ w6 (scenario FrequencyModulation) = Fin 1
  /\ w2 (scenario FrequencyModulation) = Fin 5
  /\ w3 (scenario FrequencyModulation) = Fin 3
  /\ exists (r : Widget xreal) (ys : list R),
       update (scenario FrequencyModulation) = Returns r
       /\ curve3 r = setData1 (Array (map Fin ys))
       /\ length ys = 1000%nat
       /\ Forall (fun y => 0 <= y) ys
       /\ forall k : nat,
            (0 < k < 1000)%nat -> nth (1000 - k) ys 0 = nth k ys 0.
Proof.
  repeat (split; [reflexivity |]).
  exact (@spectrum_mirrored (scenario FrequencyModulation)
           70 1 1 5 3 eq_refl eq_refl eq_refl eq_refl eq_refl).
Defined.

Lemma setLabelValue_within_bounds_scenario :
  Slider.minimum (Slider.mk (Fin 0.01) (Fin 1000) 0 99 (Fin 0.01))
  = Fin 0.01
  /\ Slider.maximum (Slider.mk (Fin 0.01) (Fin 1000) 0 99 (Fin 0.01))
     = Fin 1000
  /\ Slider.slider_minimum (Slider.mk (Fin 0.01) (Fin 1000) 0 99 (Fin 0.01))
     = 0%Z
  /\ (0 < 99)%Z /\ (0 <= 42 <= 99)%Z /\ 0.01 <= 1000
  /\ Slider.setLabelValue 42
       (Slider.mk (Fin 0.01) (Fin 1000) 0 99 (Fin 0.01))
     = Returns (Slider.mk (Fin 0.01) (Fin 1000) 0 99
                          (Fin (scaled_real 0.01 1000 0 99 42)))
  /\ 0.01 <= scaled_real 0.01 1000 0 99 42 <= 1000.
Proof.
  assert (H1 : (0 < 99)%Z) by lia.
  assert (H2 : (0 <= 42 <= 99)%Z) by lia.
  assert (H3 : 0.01 <= 1000) by lra.
  split; [reflexivity |]. split; [reflexivity |]. split; [reflexivity |].
  split; [exact H1 |]. split; [exact H2 |]. split; [exact H3 |].
  exact (@setLabelValue_within_bounds
           (Slider.mk (Fin 0.01) (Fin 1000) 0 99 (Fin 0.01))
           0.01 1000 42 eq_refl eq_refl eq_refl H1 H2 H3).
Defined.

Lemma setLabelValue_ends_scenario :
  (0 < 99)%Z /\ 0.01 <= 1000 /\ (10 <= 20)%Z
  /\ scaled_real 0.01 1000 0 99 0 = 0.01
  /\ scaled_real 0.01 1000 0 99 99 = 1000
  /\ scaled_real 0.01 1000 0 99 10 <= scaled_real 0.01 1000 0 99 20.
Proof.
  assert (H1 : (0 < 99)%Z) by lia.
  assert (H2 : 0.01 <= 1000) by lra.
  assert (H3 : (10 <= 20)%Z) by lia.
  split; [exact H1 |]. split; [exact H2 |]. split; [exact H3 |].
  destruct (@setLabelValue_ends_and_order 0.01 1000 99 10 20 H1 H2 H3)
    as (Ha & Hb & Hc & _).
  split; [exact Ha |]. split; [exact Hb | exact Hc].
Defined.

Lemma setLabelValue_slider_minimum_scenario :
  (1 < 100)%Z /\ 0.01 < 1000
  /\ Slider.setLabelValue 1 (Slider.mk (Fin 0.01) (Fin 1000) 1 100 NaN)
     = Returns (Slider.mk (Fin 0.01) (Fin 1000) 1 100
                          (Fin (scaled_real 0.01 1000 1 100 1)))
  /\ (scaled_real 0.01 1000 1 100 1 = 0.01 <-> 1%Z = 0%Z).
Proof.
  assert (H1 : (1 < 100)%Z) by lia.
  assert (H2 : 0.01 < 1000) by lra.
  split; [exact H1 |]. split; [exact H2 |].
  exact (@setLabelValue_ignores_slider_minimum 0.01 1000 1 100 H1 H2).
Defined.

Lemma session_consistent_scenario :
  (0 < 99)%Z /\ (0 <= 0 <= 99)%Z
  /\ Forall (Gui.in_range 99)
       [Gui.SliderMoved Gui.Gamma 50;
        Gui.ItemChosen CombinedFMAndTTFMS;
        Gui.BoxChanged Gui.ModFreq1 7]
  /\ exists s : Widget xreal,
       Gui.session 0 99 0 0
         [Gui.SliderMoved Gui.Gamma 50;
          Gui.ItemChosen CombinedFMAndTTFMS;
          Gui.BoxChanged Gui.ModFreq1 7]
       = Returns s
       /\ sliders_within_bounds s
       /\ (exists sch : Scheme, c1 s = item_text sch)
       /\ update s = Returns s.
Proof.
  assert (H1 : (0 < 99)%Z) by lia.
  assert (H2 : (0 <= 0 <= 99)%Z) by lia.
  assert (H3 : Forall (Gui.in_range 99)
                 [Gui.SliderMoved Gui.Gamma 50;
                  Gui.ItemChosen CombinedFMAndTTFMS;
                  Gui.BoxChanged Gui.ModFreq1 7]).
  { repeat constructor; cbn; lia. }
  split; [exact H1 |]. split; [exact H2 |]. split; [exact H3 |].
  exact (@session_consistent 99 0 0 H1 H2 _ H3).
Defined.

Lemma session_absorption_scenario :
  (0 < 99)%Z /\ (0 <= 0 <= 99)%Z
  /\ Forall (Gui.in_range 99) [Gui.SliderMoved Gui.Gamma 0]
  /\ exists (s : Widget xreal) (lw : R) (rs : list R),
       Gui.session 0 99 0 0 [Gui.SliderMoved Gui.Gamma 0] = Returns s
       /\ w1 s = Fin lw /\ 0.01 <= lw
       /\ yData (curve1 s) = Array (map Fin rs)
       /\ length rs = 1000%nat
       /\ Forall (fun r => 0.5 <= r <= 1) rs.
Proof.
  assert (H1 : (0 < 99)%Z) by lia.
  assert (H2 : (0 <= 0 <= 99)%Z) by lia.
  assert (H3 : Forall (Gui.in_range 99) [Gui.SliderMoved Gui.Gamma 0]).
  { repeat constructor; cbn; lia. }
  split; [exact H1 |]. split; [exact H2 |]. split; [exact H3 |].
  exact (@session_absorption_finite 99 0 0 H1 H2 _ H3).
Defined.

End FurtherScenario.
